(** * Harvest plan: input validation and plan generation

    A shallow embedding of the logic of
    [src/app/harvest-plan/harvest-plan.component.ts]:
    [parseHarvestOrder], [validateForm], [generatePlan] and [buildPlan].

    Modelling conventions.
    - A JavaScript string is the list of its UTF-16 code units ([jsstring]).
    - The form fields and the day arithmetic of [buildPlan_step] are
      carried in [Z].  JavaScript numbers are binary64 values; on integers
      of magnitude up to 2^53 their [+], [-], [*] and comparisons agree
      with [Z], which covers every field the form bounds.  The cathode
      durations have no upper bound, so what is proved of the phases' day
      numbers is proved of [phases64], the same computation in binary64
      ([num_add], [num_sub], [num_mul]: the exact result rounded to
      nearest, ties to even); [phases64_buildPlan_step] shows that the
      two agree within 2^53.
    - [Number(token)] is modelled down to the binary64 rounding
      (round to nearest, ties to even), since [Number.isInteger] is
      applied to the rounded value.
    - [Array.prototype.sort] is modelled as a stable insertion sort on
      the sign of the comparator. *)

From Stdlib Require Import ZArith NArith Ascii String.
From stdpp Require Import base decidable option numbers list sorting pretty.

Local Open Scope Z_scope.

(** ** JavaScript strings *)

Definition jsstring := list N.

(** An ASCII literal as a JavaScript string. *)
Definition lit (s : string) : jsstring :=
  N_of_ascii <$> list_ascii_of_string s.

(** [WhiteSpace] and [LineTerminator] code points: the class [\s] of a
    regular expression, and the characters [Number] trims. *)
Definition isWhiteSpace (c : N) : bool :=
  ((9 <=? c) && (c <=? 13) || (c =? 32) || (c =? 160) || (c =? 0x1680)
   || (0x2000 <=? c) && (c <=? 0x200A)
   || (c =? 0x2028) || (c =? 0x2029) || (c =? 0x202F) || (c =? 0x205F)
   || (c =? 0x3000) || (c =? 0xFEFF))%N.

(** The character class [[,\s]] of the separator pattern. *)
Definition isSeparator (c : N) : bool := (c =? 44)%N || isWhiteSpace c.

(** [value.split(/[,\s]+/)].  [cur] is the token being read, reversed;
    [insep] tells that the previous character was a separator, so that a
    run of separators closes a token once.  A leading or trailing
    separator run yields an empty first or last token, as in JavaScript. *)
Fixpoint split_from (cur : list N) (insep : bool) (s : jsstring)
  : list jsstring :=
  match s with
  | [] => [rev cur]
  | c :: rest =>
      if isSeparator c
      then if insep then split_from [] true rest
           else rev cur :: split_from [] true rest
      else split_from (c :: cur) false rest
  end.

Definition split (value : jsstring) : list jsstring :=
  split_from [] false value.

(** ** JavaScript numbers returned by [Number] *)

(** [Finite neg m e] is the binary64 value [(-1)^neg * m * 2^e]. *)
Inductive number :=
| NaN
| Infinity (neg : bool)
| Finite (neg : bool) (m : Z) (e : Z).

Definition round_half_even (n d : Z) : Z :=
  let q := n / d in
  match (2 * (n mod d)) ?= d with
  | Lt => q
  | Gt => q + 1
  | Eq => if Z.even q then q else q + 1
  end.

(** [floor (log2 (p / q))] for positive [p], [q]. *)
Definition ilog2_ratio (p q : Z) : Z :=
  let d := Z.log2 p - Z.log2 q in
  let below := if 0 <=? d then p <? q * 2 ^ d else p * 2 ^ (- d) <? q in
  if below then d - 1 else d.

(** The binary64 value nearest to the positive rational [p / q]
    (for [p = 0]: zero), with the given sign. *)
Definition roundToDouble (neg : bool) (p q : Z) : number :=
  if p =? 0 then Finite neg 0 0
  else
    let k := Z.max (ilog2_ratio p q - 52) (-1074) in
    let m := if 0 <=? k then round_half_even p (q * 2 ^ k)
             else round_half_even (p * 2 ^ (- k)) q in
    if 1024 <=? Z.log2 m + k then Infinity neg else Finite neg m k.

(** *** The [StringNumericLiteral] grammar *)

Definition digitValue (c : N) : option Z :=
  if ((48 <=? c) && (c <=? 57))%N then Some (Z.of_N c - 48)
  else if ((97 <=? c) && (c <=? 102))%N then Some (Z.of_N c - 87)
  else if ((65 <=? c) && (c <=? 70))%N then Some (Z.of_N c - 55)
  else None.

Definition isDigit (radix : Z) (c : N) : bool :=
  match digitValue c with
  | Some v => v <? radix
  | None => false
  end.

(** The number written by a string of digits, most significant first. *)
Definition digitsValue (radix : Z) (ds : list N) : Z :=
  foldl (fun acc c => acc * radix + default 0 (digitValue c)) 0 ds.

(** The longest prefix of decimal digits, and what follows it. *)
Fixpoint spanDigits (s : jsstring) : list N * jsstring :=
  match s with
  | c :: rest =>
      if isDigit 10 c
      then let '(ds, r) := spanDigits rest in (c :: ds, r)
      else ([], s)
  | [] => ([], [])
  end.

(** [ExponentPart_opt] at the end of the literal: the exponent. *)
Definition parseExponent (s : jsstring) : option Z :=
  match s with
  | [] => Some 0
  | c :: rest =>
      if ((c =? 101) || (c =? 69))%N then
        let '(neg, ds) :=
          match rest with
          | 43%N :: r => (false, r)
          | 45%N :: r => (true, r)
          | _ => (false, rest)
          end in
        match ds with
        | [] => None
        | _ => if forallb (isDigit 10) ds
               then Some (if neg : bool then - digitsValue 10 ds
                          else digitsValue 10 ds)
               else None
        end
      else None
  end.

(** [StrUnsignedDecimalLiteral] without [Infinity]: the digits [D] and the
    power of ten [t] of its mathematical value [D * 10^t]. *)
Definition parseUnsignedDecimal (s : jsstring) : option (Z * Z) :=
  let '(ip, r1) := spanDigits s in
  let '(fp, r2) :=
    match r1 with
    | 46%N :: r => spanDigits r
    | _ => ([], r1)
    end in
  match ip, fp with
  | [], [] => None
  | _, _ =>
      match parseExponent r2 with
      | Some ex =>
          Some (digitsValue 10 (ip ++ fp), ex - Z.of_nat (length fp))
      | None => None
      end
  end.

Definition str_Infinity : jsstring := [73; 110; 102; 105; 110; 105; 116; 121]%N.

Definition parseUnsigned (neg : bool) (s : jsstring) : number :=
  if bool_decide (s = str_Infinity) then Infinity neg
  else
    match parseUnsignedDecimal s with
    | Some (d, t) =>
        if 0 <=? t then roundToDouble neg (d * 10 ^ t) 1
        else roundToDouble neg d (10 ^ (- t))
    | None => NaN
    end.

(** [NonDecimalIntegerLiteral]: [0b], [0o] or [0x] and at least one digit
    of that radix; no sign. *)
Definition parseNonDecimal (s : jsstring) : option Z :=
  match s with
  | 48%N :: p :: ds =>
      let radix :=
        if ((p =? 120) || (p =? 88))%N then Some 16
        else if ((p =? 111) || (p =? 79))%N then Some 8
        else if ((p =? 98) || (p =? 66))%N then Some 2
        else None in
      match radix, ds with
      | Some r, _ :: _ =>
          if forallb (isDigit r) ds then Some (digitsValue r ds) else None
      | _, _ => None
      end
  | _ => None
  end.

Fixpoint dropWhiteSpace (s : jsstring) : jsstring :=
  match s with
  | c :: rest => if isWhiteSpace c then dropWhiteSpace rest else s
  | [] => []
  end.

Definition trim (s : jsstring) : jsstring :=
  rev (dropWhiteSpace (rev (dropWhiteSpace s))).

(** [Number(token)] on a string: [StringToNumber]. *)
Definition Number (token : jsstring) : number :=
  match trim token with
  | [] => Finite false 0 0
  | 43%N :: s => parseUnsigned false s
  | 45%N :: s => parseUnsigned true s
  | s =>
      match parseNonDecimal s with
      | Some v => roundToDouble false v 1
      | None => parseUnsigned false s
      end
  end.

(** [Number.isInteger(num)]. *)
Definition Number_isInteger (num : number) : bool :=
  match num with
  | Finite _ m e => if 0 <=? e then true else m mod 2 ^ (- e) =? 0
  | _ => false
  end.

(** [num > 0]. *)
Definition number_gt0 (num : number) : bool :=
  match num with
  | Finite false m _ => 0 <? m
  | Infinity false => true
  | _ => false
  end.

(** The integer an integral [number] is. *)
Definition number_toZ (num : number) : Z :=
  match num with
  | Finite neg m e =>
      let a := if 0 <=? e then m * 2 ^ e else m / 2 ^ (- e) in
      if neg then - a else a
  | _ => 0
  end.

(** ** Binary64 arithmetic

    [+], [-] and [*] of JavaScript numbers: the exact result, rounded to
    the nearest binary64 value (ties to even), with the IEEE 754 rules for
    infinities, NaN and the sign of zero. *)

(** The binary64 value nearest to an integer; an integer of magnitude up
    to 2^53 is a binary64 value itself. *)
Definition number_of_Z (z : Z) : number :=
  roundToDouble (z <? 0) (Z.abs z) 1.

Definition signedMantissa (neg : bool) (m : Z) : Z :=
  if neg then - m else m.

Definition num_add (a b : number) : number :=
  match a, b with
  | NaN, _ | _, NaN => NaN
  | Infinity s, Infinity t => if Bool.eqb s t then Infinity s else NaN
  | Infinity s, Finite _ _ _ => Infinity s
  | Finite _ _ _, Infinity t => Infinity t
  | Finite n1 m1 e1, Finite n2 m2 e2 =>
      let e0 := Z.min e1 e2 in
      let sum := signedMantissa n1 m1 * 2 ^ (e1 - e0)
                 + signedMantissa n2 m2 * 2 ^ (e2 - e0) in
      let neg := if sum =? 0 then n1 && n2 else sum <? 0 in
      if 0 <=? e0 then roundToDouble neg (Z.abs sum * 2 ^ e0) 1
      else roundToDouble neg (Z.abs sum) (2 ^ (- e0))
  end.

Definition num_neg (a : number) : number :=
  match a with
  | NaN => NaN
  | Infinity s => Infinity (negb s)
  | Finite n m e => Finite (negb n) m e
  end.

Definition num_sub (a b : number) : number := num_add a (num_neg b).

Definition num_mul (a b : number) : number :=
  match a, b with
  | NaN, _ | _, NaN => NaN
  | Infinity s, Infinity t => Infinity (xorb s t)
  | Infinity s, Finite n m _ =>
      if m =? 0 then NaN else Infinity (xorb s n)
  | Finite n m _, Infinity t =>
      if m =? 0 then NaN else Infinity (xorb n t)
  | Finite n1 m1 e1, Finite n2 m2 e2 =>
      let neg := xorb n1 n2 in
      let e := e1 + e2 in
      if 0 <=? e then roundToDouble neg (m1 * m2 * 2 ^ e) 1
      else roundToDouble neg (m1 * m2) (2 ^ (- e))
  end.

(** ** Arrays *)

Section Arrays.
Context {A : Type}.

(** [l.sort(cmp)]: only the sign of [cmp] is used; an element goes in
    front of the first one it does not compare greater than, so equal
    elements keep their order. *)
Fixpoint sort_insert (cmp : A → A → Z) (x : A) (l : list A) : list A :=
  match l with
  | [] => [x]
  | y :: l' => if cmp x y <=? 0 then x :: l else y :: sort_insert cmp x l'
  end.

Definition Array_sort (cmp : A → A → Z) (l : list A) : list A :=
  foldr (sort_insert cmp) [] l.

(** [l.every((x, idx) => f(x, idx))], counting [idx] from [i]. *)
Fixpoint every_from (i : nat) (f : A → nat → bool) (l : list A) : bool :=
  match l with
  | [] => true
  | x :: l' => f x i && every_from (S i) f l'
  end.

Definition Array_every (f : A → nat → bool) (l : list A) : bool :=
  every_from 0 f l.
End Arrays.

(** [new Set(numbers)] keeps the first occurrence of each value, in
    insertion order; [Array.from] lists them in that order. *)
Definition Set_add (s : list Z) (x : Z) : list Z :=
  if bool_decide (x ∈ s) then s else s ++ [x].

Definition Array_from_Set (numbers : list Z) : list Z :=
  foldl Set_add [] numbers.

(** ** parseHarvestOrder *)

(** The [numbers] array: the tokens that [Number] maps to a positive
    integer, as those integers. *)
Definition keptNumbers (value : jsstring) : list Z :=
  number_toZ <$>
    filter (λ num, Number_isInteger num && number_gt0 num = true)
           (Number <$> split value).

Definition isPermutation (numbers : list Z) (groupCount : Z) : bool :=
  let unique := Array_from_Set numbers in
  (Z.of_nat (length unique) =? groupCount)
  && forallb (λ n, (1 <=? n) && (n <=? groupCount)) unique
  && Array_every (λ n idx, n =? Z.of_nat idx + 1)
       (Array_sort (λ a b, a - b) unique).

Definition parseHarvestOrder (value : jsstring) (groupCount : Z) : list Z :=
  match value with
  | [] => []
  | _ =>
      let numbers := keptNumbers value in
      if negb (Z.of_nat (length numbers) =? groupCount) then []
      else if isPermutation numbers groupCount then numbers else []
  end.

(** ** Data model *)

Module HarvestPlanInputs.
Record t := mk {
  groupCount : Z;
  anodeDays : Z;
  cathodePhases : Z * Z * Z;
  cleaningDays : Z;
  harvestOrder : list Z;
  groupStartOffsetDays : Z;
}.
End HarvestPlanInputs.

Inductive PhaseType :=
| anode | cathode_in | cathode_out | cathode_reinserted | cleaning.

Module PlanPhase.
Record t := mk {
  name : string;
  startDay : Z;
  endDay : Z;
  durationDays : Z;
  type : PhaseType;
}.
End PlanPhase.

Module PlanEvent.
Record t := mk {
  name : string;
  day : Z;
}.
End PlanEvent.

Module GroupPlan.
Record t := mk {
  group : Z;
  startDay : Z;
  endDay : Z;
  phases : list PlanPhase.t;
  events : list PlanEvent.t;
  harvestDay : Z;
  cleaningRange : option string;
  cathodeOutRange : string;
}.
End GroupPlan.

(** ** buildPlan *)

(** The template literal [`${a} - ${b}`] on integers. *)
Definition rangeString (a b : Z) : string :=
  pretty a +:+ " - " +:+ pretty b.

(** The body of the [forEach] callback: the plan pushed for the group
    [groupNumber] found at position [index] of [harvestOrder], the day
    arithmetic read over the integers (see [phases64] for the binary64
    computation of the phases). *)
Definition buildPlan_step (inputs : HarvestPlanInputs.t)
    (index : nat) (groupNumber : Z) : GroupPlan.t :=
  let startDay :=
    1 + Z.of_nat index * HarvestPlanInputs.groupStartOffsetDays inputs in
  let '(cathodeA, cathodeB, cathodeC) :=
    HarvestPlanInputs.cathodePhases inputs in
  let anodeEnd := startDay + HarvestPlanInputs.anodeDays inputs - 1 in
  let cathodeOutStart := startDay + cathodeA in
  let cathodeOutEnd := cathodeOutStart + cathodeB - 1 in
  let cathodeReinsertStart := cathodeOutEnd + 1 in
  let cathodeReinsertEnd := cathodeReinsertStart + cathodeC - 1 in
  let harvestDay := anodeEnd + 1 in
  let cleaningStart := anodeEnd + 1 in
  let cleaningEnd :=
    cleaningStart + HarvestPlanInputs.cleaningDays inputs - 1 in
  let cleaningRange :=
    if 0 <? HarvestPlanInputs.cleaningDays inputs
    then Some (rangeString cleaningStart cleaningEnd) else None in
  let phases :=
    [ PlanPhase.mk "Anode im Elektrolyt" startDay anodeEnd
        (HarvestPlanInputs.anodeDays inputs) anode;
      PlanPhase.mk "Kathoden drin" startDay (startDay + cathodeA - 1)
        cathodeA cathode_in;
      PlanPhase.mk "Kathoden entfernt" cathodeOutStart cathodeOutEnd
        cathodeB cathode_out;
      PlanPhase.mk "Kathoden wieder eingesetzt" cathodeReinsertStart
        cathodeReinsertEnd cathodeC cathode_reinserted ]
    ++ (if 0 <? HarvestPlanInputs.cleaningDays inputs
        then [ PlanPhase.mk "Cleaning" cleaningStart cleaningEnd
                 (HarvestPlanInputs.cleaningDays inputs) cleaning ]
        else []) in
  let events :=
    [ PlanEvent.mk "Einheben" startDay;
      PlanEvent.mk "Kathoden raus" cathodeOutStart;
      PlanEvent.mk "Kathoden rein" cathodeReinsertStart;
      PlanEvent.mk "Harvest/Anoden raus" harvestDay ]
    ++ (if 0 <? HarvestPlanInputs.cleaningDays inputs
        then [ PlanEvent.mk "Cleaning done" (cleaningEnd + 1) ]
        else []) in
  let endDay :=
    if 0 <? HarvestPlanInputs.cleaningDays inputs
    then cleaningEnd + 1 else harvestDay in
  GroupPlan.mk groupNumber startDay endDay phases events harvestDay
    cleaningRange (rangeString cathodeOutStart cathodeOutEnd).

Definition buildPlan (inputs : HarvestPlanInputs.t) : list GroupPlan.t :=
  let plans := imap (buildPlan_step inputs)
                 (HarvestPlanInputs.harvestOrder inputs) in
  Array_sort (λ a b, GroupPlan.group a - GroupPlan.group b) plans.

(** *** The phases in binary64

    [buildPlan_step] reads the day arithmetic over the integers.  The
    code computes it in binary64; the two agree while every day number
    stays within 2^53.  [phases64] is the [phases] array of the callback
    as the code computes it, at position [index] of [harvestOrder], the
    integer fields of [inputs] taken as JavaScript numbers. *)

Module PlanPhase64.
Record t := mk {
  name : string;
  startDay : number;
  endDay : number;
  durationDays : number;
  type : PhaseType;
}.
End PlanPhase64.

Definition phases64 (inputs : HarvestPlanInputs.t) (index : nat)
  : list PlanPhase64.t :=
  let one := number_of_Z 1 in
  let groupStartOffsetDays :=
    number_of_Z (HarvestPlanInputs.groupStartOffsetDays inputs) in
  let anodeDays := number_of_Z (HarvestPlanInputs.anodeDays inputs) in
  let cleaningDays := number_of_Z (HarvestPlanInputs.cleaningDays inputs) in
  let startDay :=
    num_add one
      (num_mul (number_of_Z (Z.of_nat index)) groupStartOffsetDays) in
  let '(A, B, C) := HarvestPlanInputs.cathodePhases inputs in
  let cathodeA := number_of_Z A in
  let cathodeB := number_of_Z B in
  let cathodeC := number_of_Z C in
  let anodeEnd := num_sub (num_add startDay anodeDays) one in
  let cathodeOutStart := num_add startDay cathodeA in
  let cathodeOutEnd := num_sub (num_add cathodeOutStart cathodeB) one in
  let cathodeReinsertStart := num_add cathodeOutEnd one in
  let cathodeReinsertEnd :=
    num_sub (num_add cathodeReinsertStart cathodeC) one in
  let cleaningStart := num_add anodeEnd one in
  let cleaningEnd := num_sub (num_add cleaningStart cleaningDays) one in
  [ PlanPhase64.mk "Anode im Elektrolyt" startDay anodeEnd anodeDays anode;
    PlanPhase64.mk "Kathoden drin" startDay
      (num_sub (num_add startDay cathodeA) one) cathodeA cathode_in;
    PlanPhase64.mk "Kathoden entfernt" cathodeOutStart cathodeOutEnd
      cathodeB cathode_out;
    PlanPhase64.mk "Kathoden wieder eingesetzt" cathodeReinsertStart
      cathodeReinsertEnd cathodeC cathode_reinserted ]
  ++ (if number_gt0 cleaningDays
      then [ PlanPhase64.mk "Cleaning" cleaningStart cleaningEnd
               cleaningDays cleaning ]
      else []).

(** A phase whose day numbers are the integers [a], [b] and [d]. *)
Definition phase64_of_days (name : string) (a b d : Z) (type : PhaseType)
  : PlanPhase64.t :=
  PlanPhase64.mk name (number_of_Z a) (number_of_Z b) (number_of_Z d) type.

(** ** The form and the component state *)

(** The value of the reactive form.  The numeric controls hold numbers
    (the type the component casts them to). *)
Module Form.
Record t := mk {
  groupCount : Z;
  anodeDays : Z;
  cathodeA : Z;
  cathodeB : Z;
  cathodeC : Z;
  cleaningDays : Z;
  harvestOrder : jsstring;
  groupStartOffsetDays : Z;
}.
End Form.

Inductive Severity := error | warn | info.

Global Instance Severity_eq_dec : EqDecision Severity.
Proof. solve_decision. Defined.

Module Message.
Record t := mk {
  severity : Severity;
  detail : string;
}.
End Message.

Module Component.
Record t := mk {
  form : Form.t;
  plan : list GroupPlan.t;
  maxPlanDay : Z;
  timelineDays : Z;
  messages : list Message.t;
}.
End Component.

(** [Validators.min(lo)] and [Validators.max(hi)] on a number. *)
Definition Validators_min (lo v : Z) : bool := lo <=? v.
Definition Validators_max (hi v : Z) : bool := v <=? hi.

(** [Validators.required] on a string control. *)
Definition Validators_required (v : jsstring) : bool :=
  match v with [] => false | _ => true end.

(** [this.form.invalid], with the validators the constructor attaches. *)
Definition form_invalid (f : Form.t) : bool :=
  negb
    (Validators_min 1 (Form.groupCount f)
     && Validators_max 100 (Form.groupCount f)
     && Validators_min 1 (Form.anodeDays f)
     && Validators_max 365 (Form.anodeDays f)
     && Validators_min 0 (Form.cathodeA f)
     && Validators_min 0 (Form.cathodeB f)
     && Validators_min 0 (Form.cathodeC f)
     && Validators_min 0 (Form.cleaningDays f)
     && Validators_max 60 (Form.cleaningDays f)
     && Validators_required (Form.harvestOrder f)
     && Validators_min 0 (Form.groupStartOffsetDays f)
     && Validators_max 30 (Form.groupStartOffsetDays f)).

Definition cathodeSum (f : Form.t) : Z :=
  Form.cathodeA f + Form.cathodeB f + Form.cathodeC f.

Definition cathodeSumMismatch (f : Form.t) : bool :=
  negb (cathodeSum f =? Form.anodeDays f).

Definition msg_required : Message.t :=
  Message.mk error "Bitte alle Pflichtfelder korrekt ausfüllen.".
Definition msg_order : Message.t :=
  Message.mk error "Harvest-Reihenfolge ist ungültig.".
Definition msg_cathodeSum : Message.t :=
  Message.mk warn "Summe der Kathoden-Phasen entspricht nicht anodeDays.".

(** The local [errors] array of [validateForm] when it returns. *)
Definition validateForm_errors (f : Form.t) : list Message.t :=
  let order := parseHarvestOrder (Form.harvestOrder f) (Form.groupCount f) in
  (if form_invalid f then [msg_required] else [])
  ++ (if bool_decide (length order = 0%nat) then [msg_order] else [])
  ++ (if cathodeSumMismatch f then [msg_cathodeSum] else []).

Definition validateForm (showErrors : bool) (c : Component.t)
  : Component.t * bool :=
  let errors := validateForm_errors (Component.form c) in
  let c' :=
    if showErrors
    then Component.mk (Component.form c) (Component.plan c)
           (Component.maxPlanDay c) (Component.timelineDays c) errors
    else c in
  (c', bool_decide
         (length (filter (λ e, Message.severity e = error) errors) = 0%nat)).

(** The [inputs] object that [generatePlan] assembles from the form. *)
Definition formInputs (f : Form.t) : HarvestPlanInputs.t :=
  HarvestPlanInputs.mk (Form.groupCount f) (Form.anodeDays f)
    (Form.cathodeA f, Form.cathodeB f, Form.cathodeC f)
    (Form.cleaningDays f)
    (parseHarvestOrder (Form.harvestOrder f) (Form.groupCount f))
    (Form.groupStartOffsetDays f).

Definition generatePlan (c : Component.t) : Component.t :=
  let f := Component.form c in
  let c0 := Component.mk f (Component.plan c) (Component.maxPlanDay c)
              (Component.timelineDays c) [] in
  let '(c1, validationPassed) := validateForm true c0 in
  if negb validationPassed
  then Component.mk f [] 0 (Component.timelineDays c1) (Component.messages c1)
  else
    let inputs := formInputs f in
    let plan := buildPlan inputs in
    let maxPlanDay :=
      foldl (λ max gp, Z.max max (GroupPlan.endDay gp)) 0 plan in
    Component.mk f plan maxPlanDay
      (Z.max 42 (if maxPlanDay =? 0 then 0 else maxPlanDay))
      (Component.messages c1).

(** ** Specification predicates *)

(** A [HarvestPlanInputs] as the data model describes it: positive group
    count and anode duration, non-negative cathode durations, cleaning
    duration and start offset, and a harvest order that is a permutation
    of [1..groupCount].  The form validators imply the numeric part. *)
Record valid_inputs (inputs : HarvestPlanInputs.t) : Prop := {
  valid_groupCount : 1 ≤ HarvestPlanInputs.groupCount inputs;
  valid_anodeDays : 1 ≤ HarvestPlanInputs.anodeDays inputs;
  valid_cathodePhases :
    0 ≤ (HarvestPlanInputs.cathodePhases inputs).1.1
    ∧ 0 ≤ (HarvestPlanInputs.cathodePhases inputs).1.2
    ∧ 0 ≤ (HarvestPlanInputs.cathodePhases inputs).2;
  valid_cleaningDays : 0 ≤ HarvestPlanInputs.cleaningDays inputs;
  valid_groupStartOffsetDays :
    0 ≤ HarvestPlanInputs.groupStartOffsetDays inputs;
  valid_harvestOrder :
    HarvestPlanInputs.harvestOrder inputs
    ≡ₚ seqZ 1 (HarvestPlanInputs.groupCount inputs);
}.

(** The four ways in which kept tokens fail to be a permutation of
    [1..groupCount]. *)
Definition wrongCount (numbers : list Z) (groupCount : Z) : Prop :=
  Z.of_nat (length numbers) ≠ groupCount.
Definition hasDuplicates (numbers : list Z) : Prop := ¬ NoDup numbers.
Definition hasOutOfRange (numbers : list Z) (groupCount : Z) : Prop :=
  ∃ n, n ∈ numbers ∧ ¬ (1 ≤ n ≤ groupCount).
Definition hasGap (numbers : list Z) (groupCount : Z) : Prop :=
  ∃ k, 1 ≤ k ≤ groupCount ∧ k ∉ numbers.

Definition rejected (numbers : list Z) (groupCount : Z) : Prop :=
  wrongCount numbers groupCount ∨ hasDuplicates numbers
  ∨ hasOutOfRange numbers groupCount ∨ hasGap numbers groupCount.

(** The kept tokens are a true permutation of [1..groupCount]. *)
Definition accepted (numbers : list Z) (groupCount : Z) : Prop :=
  Z.of_nat (length numbers) = groupCount
  ∧ numbers ≡ₚ seqZ 1 groupCount.

(** The code units of the decimal digits. *)
Definition decimalDigit (c : N) : Prop := (48 ≤ c ≤ 57)%N.

(** The day-range conditions the data model states for a phase. *)
Definition phase_days_ok (ph : PlanPhase.t) : Prop :=
  1 ≤ PlanPhase.startDay ph ∧ 1 ≤ PlanPhase.endDay ph
  ∧ PlanPhase.startDay ph ≤ PlanPhase.endDay ph
  ∧ PlanPhase.durationDays ph
    = PlanPhase.endDay ph - PlanPhase.startDay ph + 1.

(** The JavaScript number [x] is the integer [z]. *)
Definition is_day (x : number) (z : Z) : Prop :=
  Number_isInteger x = true ∧ number_toZ x = z.

(** The cathode phases at position [index], as computed in binary64,
    span the chained day ranges: with [s = 1 + index *
    groupStartOffsetDays], cathode-in [s .. s+A-1], cathode-out
    [s+A .. s+A+B-1], cathode-reinserted [s+A+B .. s+A+B+C-1]. *)
Definition cathode_chained64 (inputs : HarvestPlanInputs.t) (index : nat)
  : Prop :=
  let '(A, B, C) := HarvestPlanInputs.cathodePhases inputs in
  let s :=
    1 + Z.of_nat index * HarvestPlanInputs.groupStartOffsetDays inputs in
  ∃ an cin cout cre rest,
    phases64 inputs index = an :: cin :: cout :: cre :: rest
    ∧ PlanPhase64.type an = anode
    ∧ Forall (λ ph, PlanPhase64.type ph = cleaning) rest
    ∧ (PlanPhase64.type cin = cathode_in
       ∧ is_day (PlanPhase64.startDay cin) s
       ∧ is_day (PlanPhase64.endDay cin) (s + A - 1))
    ∧ (PlanPhase64.type cout = cathode_out
       ∧ is_day (PlanPhase64.startDay cout) (s + A)
       ∧ is_day (PlanPhase64.endDay cout) (s + A + B - 1))
    ∧ (PlanPhase64.type cre = cathode_reinserted
       ∧ is_day (PlanPhase64.startDay cre) (s + A + B)
       ∧ is_day (PlanPhase64.endDay cre) (s + A + B + C - 1)).

(** ** Sample inputs *)

(** The example of the specification: three groups started in the order
    2, 1, 3, five days apart. *)
Definition sampleInputs : HarvestPlanInputs.t :=
  HarvestPlanInputs.mk 3 10 (4, 3, 3) 2 [2; 1; 3] 5.

(** One group, no cleaning, and a first cathode sub-phase of duration 0,
    which the form accepts ([Validators.min(0)]). *)
Definition zeroCathodeInputs : HarvestPlanInputs.t :=
  HarvestPlanInputs.mk 1 10 (0, 5, 5) 0 [1] 1.

(** One group whose first cathode sub-phase lasts 2^53 days: a valid
    input, the cathode durations having no upper bound. *)
Definition bigCathodeInputs : HarvestPlanInputs.t :=
  HarvestPlanInputs.mk 1 14 (2 ^ 53, 2, 3) 0 [1] 1.

(** The component as its field initialisers leave it, around a form. *)
Definition initialComponent (f : Form.t) : Component.t :=
  Component.mk f [] 0 42 [].

(** The form defaults: cathode durations 5, 5, 4 for 14 anode days. *)
Definition defaultForm : Form.t :=
  Form.mk 8 14 5 5 4 0 (lit "1,2,3,4,5,6,7,8") 1.

(** The defaults with cathode durations 5, 5, 5: the sum is 15, not 14. *)
Definition mismatchForm : Form.t :=
  Form.mk 8 14 5 5 5 0 (lit "1,2,3,4,5,6,7,8") 1.

(** Four groups and an order with a token that is not a number. *)
Definition malformedForm : Form.t :=
  Form.mk 4 14 5 5 4 0 (lit "1, 2, x, 3") 1.

(** ** The other methods of the component *)

(** The [defaults] object. *)
Module defaults.
Definition groupCount : Z := 8.
Definition anodeDays : Z := 14.
Definition cathodeA : Z := 5.
Definition cathodeB : Z := 5.
Definition cathodeC : Z := 4.
Definition cleaningDays : Z := 0.
Definition groupStartOffsetDays : Z := 1.
End defaults.

(** [Array.from({ length: groupCount }, (_, i) => i + 1).join(',')]: the
    numbers [1..groupCount] in decimal, separated by commas.  [Array.from]
    creates the array with [new Array(length)], which throws a RangeError
    for a length of 2^32 or more: [None].  A length below 1 gives the
    empty array and so the empty string. *)
Definition defaultOrder (groupCount : Z) : option jsstring :=
  if 2 ^ 32 <=? groupCount then None
  else
    Some (lit (String.concat ","
                 ((pretty : Z → string) <$> seqZ 1 groupCount))).

(** [normalizeCathodes]: [patchValue] writes [cathodeC] only. *)
Definition normalizeCathodes (c : Component.t) : Component.t :=
  let f := Component.form c in
  let remaining := Z.max (Form.anodeDays f - Form.cathodeA f - Form.cathodeB f) 0 in
  Component.mk
    (Form.mk (Form.groupCount f) (Form.anodeDays f) (Form.cathodeA f)
       (Form.cathodeB f) remaining (Form.cleaningDays f)
       (Form.harvestOrder f) (Form.groupStartOffsetDays f))
    (Component.plan c) (Component.maxPlanDay c) (Component.timelineDays c)
    (Component.messages c).

(** [resetDefaults]: the form is reset to the defaults, the messages are
    cleared, and the plan is generated; [None] if [defaultOrder] throws
    (its argument is evaluated before anything is changed). *)
Definition resetDefaults (c : Component.t) : option Component.t :=
  match defaultOrder defaults.groupCount with
  | None => None
  | Some order =>
      Some (generatePlan
              (Component.mk
                 (Form.mk defaults.groupCount defaults.anodeDays
                    defaults.cathodeA defaults.cathodeB defaults.cathodeC
                    defaults.cleaningDays order
                    defaults.groupStartOffsetDays)
                 (Component.plan c) (Component.maxPlanDay c)
                 (Component.timelineDays c) []))
  end.

Definition csvHeader : string :=
  "Group,Start Day,End Day,Cathode Out Range,Harvest Day,Cleaning Range".

(** The array of one row and its [join(',')]; [??] puts "-" for an
    absent [cleaningRange]. *)
Definition csvFields (p : GroupPlan.t) : list string :=
  [ pretty (GroupPlan.group p); pretty (GroupPlan.startDay p);
    pretty (GroupPlan.endDay p); GroupPlan.cathodeOutRange p;
    pretty (GroupPlan.harvestDay p);
    default "-" (GroupPlan.cleaningRange p) ].

Definition csvRow (p : GroupPlan.t) : string :=
  String.concat "," (csvFields p).

Definition newline : string := String "010" "".

(** [exportCsv]: the [csvContent] handed to the download, or nothing
    when the method returns at once because the plan is empty. *)
Definition exportCsv (c : Component.t) : option string :=
  match Component.plan c with
  | [] => None
  | plan => Some (String.concat newline (csvHeader :: (csvRow <$> plan)))
  end.

(** [maxDaysArray]: the days [1..timelineDays]. *)
Definition maxDaysArray (c : Component.t) : list Z :=
  seqZ 1 (Component.timelineDays c).

Definition phaseClass (type : PhaseType) : string :=
  match type with
  | anode => "phase-anode"
  | cathode_in => "phase-cathode-in"
  | cathode_out => "phase-cathode-out"
  | cathode_reinserted => "phase-cathode-reinserted"
  | cleaning => "phase-cleaning"
  end.

(** * Properties *)

(** ** Sorting *)

Section SortByKey.
Context {A : Type} (key : A → Z) (cmp : A → A → Z).
Hypothesis cmp_key : ∀ a b, cmp a b = key a - key b.

Lemma sort_insert_Permutation x l : sort_insert cmp x l ≡ₚ x :: l.
Proof.
  induction l as [|y l IH]; simpl; [done|].
  destruct (cmp x y <=? 0); [done|].
  rewrite IH. apply Permutation_swap.
Qed.

Lemma Array_sort_Permutation l : Array_sort cmp l ≡ₚ l.
Proof.
  induction l as [|x l IH]; simpl; [done|].
  fold (Array_sort cmp l). by rewrite sort_insert_Permutation, IH.
Qed.

Lemma sort_insert_HdRel a x l :
  key a ≤ key x → HdRel Z.le (key a) (key <$> l) →
  HdRel Z.le (key a) (key <$> sort_insert cmp x l).
Proof.
  intros Hax Hal. destruct l as [|y l]; simpl.
  - by constructor.
  - destruct (cmp x y <=? 0); csimpl; [by constructor|].
    inversion Hal; subst. by constructor.
Qed.

Lemma sort_insert_Sorted x l :
  Sorted Z.le (key <$> l) → Sorted Z.le (key <$> sort_insert cmp x l).
Proof.
  induction l as [|y l IH]; intros Hs; simpl.
  - repeat constructor.
  - destruct (Z.leb_spec (cmp x y) 0) as [Hle|Hgt]; rewrite cmp_key in *.
    + csimpl. constructor; [done|]. constructor. lia.
    + csimpl. inversion Hs; subst. constructor; [auto|].
      apply sort_insert_HdRel; [lia|done].
Qed.

Lemma Array_sort_Sorted l : Sorted Z.le (key <$> Array_sort cmp l).
Proof.
  induction l as [|x l IH]; simpl; [constructor|].
  by apply sort_insert_Sorted.
Qed.
End SortByKey.

Lemma Sorted_seqZ_succ (R : relation Z) m n :
  (∀ x, R x (Z.succ x)) → Sorted R (seqZ m n).
Proof.
  intros HR.
  destruct (decide (n ≤ 0)) as [?|Hn]; [rewrite seqZ_nil by done; constructor|].
  rewrite <- (Z2Nat.id n) by lia.
  generalize (Z.to_nat n) as k. clear Hn. intros k. revert m.
  induction k as [|k IH]; intros m; [constructor|].
  rewrite seqZ_cons by lia.
  replace (Z.pred (Z.of_nat (S k))) with (Z.of_nat k) by lia.
  constructor; [apply IH|].
  destruct k; [constructor|].
  rewrite seqZ_cons by lia. constructor. apply HR.
Qed.

Lemma Sorted_seqZ m n : Sorted Z.le (seqZ m n).
Proof. apply Sorted_seqZ_succ. intros; lia. Qed.

(** Sorting by a key a list whose keys are a permutation of [m..m+n-1]
    lists the keys in that order. *)
Lemma Array_sort_keys_seqZ {A} (key : A → Z) cmp (l : list A) m n :
  (∀ a b, cmp a b = key a - key b) →
  key <$> l ≡ₚ seqZ m n →
  key <$> Array_sort cmp l = seqZ m n.
Proof.
  intros Hcmp Hperm.
  apply (Sorted_unique Z.le).
  - by apply Array_sort_Sorted.
  - apply Sorted_seqZ.
  - by rewrite Array_sort_Permutation.
Qed.

(** ** buildPlan *)

Lemma buildPlan_step_group inputs index groupNumber :
  GroupPlan.group (buildPlan_step inputs index groupNumber) = groupNumber.
Proof.
  unfold buildPlan_step.
  by destruct (HarvestPlanInputs.cathodePhases inputs) as [[??]?].
Qed.

Lemma buildPlan_step_startDay inputs index groupNumber :
  GroupPlan.startDay (buildPlan_step inputs index groupNumber)
  = 1 + Z.of_nat index * HarvestPlanInputs.groupStartOffsetDays inputs.
Proof.
  unfold buildPlan_step.
  by destruct (HarvestPlanInputs.cathodePhases inputs) as [[??]?].
Qed.

Lemma buildPlan_Permutation inputs :
  buildPlan inputs
  ≡ₚ imap (buildPlan_step inputs) (HarvestPlanInputs.harvestOrder inputs).
Proof. apply Array_sort_Permutation. Qed.

Lemma pushed_groups inputs (order : list Z) :
  GroupPlan.group <$> imap (buildPlan_step inputs) order = order.
Proof.
  apply list_eq; intros i.
  rewrite list_lookup_fmap, list_lookup_imap.
  destruct (order !! i); simpl; [|done].
  by rewrite buildPlan_step_group.
Qed.

Lemma elem_of_buildPlan inputs p :
  p ∈ buildPlan inputs ↔
  ∃ index groupNumber,
    HarvestPlanInputs.harvestOrder inputs !! index = Some groupNumber
    ∧ p = buildPlan_step inputs index groupNumber.
Proof.
  rewrite buildPlan_Permutation, elem_of_lookup_imap.
  split; intros (i & g & H1 & H2); eauto.
Qed.

Lemma buildPlan_groups inputs :
  HarvestPlanInputs.harvestOrder inputs
  ≡ₚ seqZ 1 (HarvestPlanInputs.groupCount inputs) →
  GroupPlan.group <$> buildPlan inputs
  = seqZ 1 (HarvestPlanInputs.groupCount inputs).
Proof.
  intros Hperm. apply Array_sort_keys_seqZ; [done|].
  by rewrite pushed_groups.
Qed.

(** C1. When [harvestOrder] is a permutation of [1..groupCount],
    [buildPlan] returns exactly [groupCount] plans and their group
    identifiers, read in list order, are [1, 2, ..., groupCount]: each
    group once, ascending. *)
Theorem buildPlan_groups_ascending inputs :
  0 ≤ HarvestPlanInputs.groupCount inputs →
  HarvestPlanInputs.harvestOrder inputs
  ≡ₚ seqZ 1 (HarvestPlanInputs.groupCount inputs) →
  Z.of_nat (length (buildPlan inputs)) = HarvestPlanInputs.groupCount inputs
  ∧ GroupPlan.group <$> buildPlan inputs
    = seqZ 1 (HarvestPlanInputs.groupCount inputs)
  ∧ Sorted Z.lt (GroupPlan.group <$> buildPlan inputs).
Proof.
  intros Hn Hperm.
  pose proof (buildPlan_groups inputs Hperm) as Hg.
  split; [|split; [done|]].
  - rewrite <- (length_fmap GroupPlan.group), Hg, length_seqZ. lia.
  - rewrite Hg. apply Sorted_seqZ_succ. intros; lia.
Qed.

Lemma sampleInputs_order :
  HarvestPlanInputs.harvestOrder sampleInputs
  ≡ₚ seqZ 1 (HarvestPlanInputs.groupCount sampleInputs).
Proof. apply perm_swap. Qed.

Lemma buildPlan_groups_ascending_witness :
  Z.of_nat (length (buildPlan sampleInputs)) = 3
  ∧ GroupPlan.group <$> buildPlan sampleInputs = [1; 2; 3]
  ∧ Sorted Z.lt (GroupPlan.group <$> buildPlan sampleInputs).
Proof.
  apply (buildPlan_groups_ascending sampleInputs).
  - simpl. lia.
  - apply sampleInputs_order.
Defined.

(** C2. The plan of the group found at position [index] of
    [harvestOrder] starts on day [1 + index * groupStartOffsetDays],
    whatever the group's number; in the returned list that plan sits at
    the place of its group number (position [groupNumber - 1]), and it is
    the only plan of that group. *)
Theorem startDay_by_position inputs (index : nat) groupNumber :
  valid_inputs inputs →
  HarvestPlanInputs.harvestOrder inputs !! index = Some groupNumber →
  ∃ p,
    buildPlan inputs !! Z.to_nat (groupNumber - 1) = Some p
    ∧ GroupPlan.group p = groupNumber
    ∧ GroupPlan.startDay p
      = 1 + Z.of_nat index * HarvestPlanInputs.groupStartOffsetDays inputs
    ∧ ∀ q, q ∈ buildPlan inputs → GroupPlan.group q = groupNumber → q = p.
Proof.
  intros Hv Hidx.
  pose proof (buildPlan_groups inputs (valid_harvestOrder _ Hv)) as Hg.
  assert (Hpos : ∀ q j, buildPlan inputs !! j = Some q →
                        j = Z.to_nat (GroupPlan.group q - 1)).
  { intros q j Hj.
    assert ((GroupPlan.group <$> buildPlan inputs) !! j
            = Some (GroupPlan.group q)) as Hgj
      by (by rewrite list_lookup_fmap, Hj).
    rewrite Hg in Hgj. apply lookup_seqZ in Hgj. lia. }
  set (p := buildPlan_step inputs index groupNumber).
  assert (Hp : p ∈ buildPlan inputs) by (apply elem_of_buildPlan; eauto).
  assert (Hgp : GroupPlan.group p = groupNumber)
    by apply buildPlan_step_group.
  apply list_elem_of_lookup in Hp as [j Hj].
  exists p. split; [|split; [done|split]].
  - by rewrite <- Hgp, <- (Hpos p j Hj).
  - apply buildPlan_step_startDay.
  - intros q Hq Hgq. apply list_elem_of_lookup in Hq as [j' Hj'].
    pose proof (Hpos _ _ Hj) as E1. pose proof (Hpos _ _ Hj') as E2.
    rewrite Hgp in E1. rewrite Hgq in E2. subst j'. rewrite E1 in Hj.
    congruence.
Qed.

Lemma sampleInputs_valid : valid_inputs sampleInputs.
Proof.
  split; simpl; try lia. apply sampleInputs_order.
Defined.

Lemma startDay_by_position_witness :
  ∃ p, buildPlan sampleInputs !! 1%nat = Some p
       ∧ GroupPlan.group p = 2
       ∧ GroupPlan.startDay p = 1
       ∧ ∀ q, q ∈ buildPlan sampleInputs → GroupPlan.group q = 2 → q = p.
Proof.
  exact (startDay_by_position sampleInputs 0 2 sampleInputs_valid eq_refl).
Defined.

(** Membership in a list written out element by element. *)
Ltac split_elem :=
  repeat match goal with
    | H : _ ∈ _ ++ _ |- _ => apply elem_of_app in H as [H|H]
    | H : _ ∈ _ :: _ |- _ => apply elem_of_cons in H as [->|H]
    | H : _ ∈ [] |- _ => apply elem_of_nil in H; destruct H
    end.

(** Every returned plan is the plan of some position of [harvestOrder]. *)
Ltac plan_cases Hp :=
  let i := fresh "index" in
  let g := fresh "groupNumber" in
  apply elem_of_buildPlan in Hp as (i & g & _ & ->);
  unfold buildPlan_step.

(** C3. With [anodeEnd = startDay + anodeDays - 1], every plan has
    [harvestDay = anodeEnd + 1].  When [cleaningDays > 0] the plan has one
    cleaning phase, spanning [anodeEnd+1 .. anodeEnd+cleaningDays], its
    [endDay] is [anodeEnd + cleaningDays + 1], a "Cleaning done" event
    lies on that [endDay], and [cleaningRange] is set.  When
    [cleaningDays = 0] there is no cleaning phase, no [cleaningRange], no
    "Cleaning done" event, and [endDay = harvestDay].  No validity
    assumption is needed. *)
Theorem harvest_and_cleaning inputs p :
  p ∈ buildPlan inputs →
  let anodeEnd :=
    GroupPlan.startDay p + HarvestPlanInputs.anodeDays inputs - 1 in
  let cleaningDays := HarvestPlanInputs.cleaningDays inputs in
  GroupPlan.harvestDay p = anodeEnd + 1
  ∧ (0 < cleaningDays →
       (∃ ph, ph ∈ GroupPlan.phases p
              ∧ PlanPhase.type ph = cleaning
              ∧ PlanPhase.startDay ph = anodeEnd + 1
              ∧ PlanPhase.endDay ph = anodeEnd + cleaningDays
              ∧ ∀ ph', ph' ∈ GroupPlan.phases p →
                       PlanPhase.type ph' = cleaning → ph' = ph)
       ∧ GroupPlan.endDay p = anodeEnd + cleaningDays + 1
       ∧ PlanEvent.mk "Cleaning done" (GroupPlan.endDay p)
         ∈ GroupPlan.events p
       ∧ GroupPlan.cleaningRange p
         = Some (rangeString (anodeEnd + 1) (anodeEnd + cleaningDays)))
  ∧ (cleaningDays = 0 →
       (∀ ph, ph ∈ GroupPlan.phases p → PlanPhase.type ph ≠ cleaning)
       ∧ GroupPlan.cleaningRange p = None
       ∧ (∀ ev, ev ∈ GroupPlan.events p →
                PlanEvent.name ev ≠ "Cleaning done")
       ∧ GroupPlan.endDay p = GroupPlan.harvestDay p).
Proof.
  intros Hp. plan_cases Hp.
  destruct (HarvestPlanInputs.cathodePhases inputs) as [[cathodeA cathodeB] cathodeC].
  cbn. split; [done|]. split.
  - intros Hc. apply Z.ltb_lt in Hc. rewrite Hc. split; [|split; [|split]].
    + eexists. split; [do 4 apply list_elem_of_further; apply list_elem_of_here|].
      cbn. split; [done|]. split; [done|]. split; [lia|].
      intros ph' Hph' Hty. split_elem; try discriminate Hty. done.
    + lia.
    + do 4 apply list_elem_of_further.
      match goal with
      | |- ?a ∈ [?b] => replace a with b; [apply list_elem_of_here|f_equal; lia]
      end.
    + do 2 f_equal. lia.
  - intros Hc. rewrite Hc. cbn. split; [|split; [done|split; [|done]]].
    + intros ph Hph. split_elem; discriminate.
    + intros ev Hev. split_elem; discriminate.
Qed.

Lemma sampleInputs_group2 :
  buildPlan_step sampleInputs 0 2 ∈ buildPlan sampleInputs.
Proof. apply elem_of_buildPlan. by exists 0%nat, 2. Defined.

Lemma harvest_and_cleaning_witness :
  let p := buildPlan_step sampleInputs 0 2 in
  GroupPlan.harvestDay p = 1 + 10 - 1 + 1
  ∧ GroupPlan.endDay p = 1 + 10 - 1 + 2 + 1
  ∧ PlanEvent.mk "Cleaning done" (GroupPlan.endDay p) ∈ GroupPlan.events p.
Proof.
  intros p.
  destruct (harvest_and_cleaning sampleInputs p sampleInputs_group2)
    as (Hharvest & Hcleaning & _).
  destruct Hcleaning as (_ & Hend & Hevent & _); [simpl; lia|].
  split; [exact Hharvest | split; [exact Hend | exact Hevent]].
Defined.

Lemma zeroCathodeInputs_valid : valid_inputs zeroCathodeInputs.
Proof. split; simpl; try lia. done. Defined.

(** C5 as stated fails: [zeroCathodeInputs] is valid, and its cathode-in
    phase, of duration 0, spans day 1 to day 0, in the integer reading
    and in binary64 alike. *)
Lemma phase_days_counterexample :
  valid_inputs zeroCathodeInputs
  ∧ ¬ (∀ p ph, p ∈ buildPlan zeroCathodeInputs →
               ph ∈ GroupPlan.phases p → phase_days_ok ph)
  ∧ ∃ ph, ph ∈ phases64 zeroCathodeInputs 0
          ∧ PlanPhase64.type ph = cathode_in
          ∧ is_day (PlanPhase64.startDay ph) 1
          ∧ is_day (PlanPhase64.endDay ph) 0.
Proof.
  split; [apply zeroCathodeInputs_valid|]. split.
  2:{ eexists. split.
      - vm_compute. apply list_elem_of_further, list_elem_of_here.
      - repeat split; vm_compute; reflexivity. }
  intros H.
    destruct (H (buildPlan_step zeroCathodeInputs 0 1)
                (PlanPhase.mk "Kathoden drin" 1 0 0 cathode_in))
      as (_ & Hend & _).
    + apply elem_of_buildPlan. by exists 0%nat, 1.
    + cbn. apply list_elem_of_further, list_elem_of_here.
    + simpl in Hend. lia.
Qed.

(** ** parseHarvestOrder *)

Lemma foldl_Set_add_NoDup acc l :
  NoDup (acc ++ l) → foldl Set_add acc l = acc ++ l.
Proof.
  revert acc. induction l as [|x l IH]; intros acc Hnd; simpl.
  - by rewrite app_nil_r.
  - assert (x ∉ acc) as Hx.
    { apply NoDup_app in Hnd as (_ & Hd & _). intros Hin.
      apply (Hd x Hin). apply list_elem_of_here. }
    unfold Set_add at 2. rewrite bool_decide_eq_false_2 by done.
    rewrite IH; rewrite <- app_assoc; done.
Qed.

Lemma foldl_Set_add_length acc l :
  (length (foldl Set_add acc l) ≤ length acc + length l)%nat.
Proof.
  revert acc. induction l as [|x l IH]; intros acc; simpl; [lia|].
  etrans; [apply IH|]. unfold Set_add.
  case_bool_decide; rewrite ?length_app; simpl; lia.
Qed.

Lemma foldl_Set_add_length_eq acc l :
  NoDup acc →
  length (foldl Set_add acc l) = (length acc + length l)%nat →
  NoDup (acc ++ l).
Proof.
  revert acc. induction l as [|x l IH]; intros acc Hnd Hlen; simpl in *.
  - by rewrite app_nil_r.
  - unfold Set_add in Hlen at 2. case_bool_decide as Hx.
    + pose proof (foldl_Set_add_length acc l). lia.
    + rewrite (assoc_L (++) acc [x] l : acc ++ x :: l = (acc ++ [x]) ++ l).
      apply IH.
      * apply NoDup_app. split; [done|]. split; [|apply NoDup_singleton].
        intros y Hy ->%list_elem_of_singleton. done.
      * rewrite Hlen, length_app. simpl. lia.
Qed.

Lemma Array_from_Set_NoDup numbers :
  NoDup numbers → Array_from_Set numbers = numbers.
Proof. intros. by apply (foldl_Set_add_NoDup []). Qed.

Lemma Array_from_Set_length_eq numbers :
  length (Array_from_Set numbers) = length numbers → NoDup numbers.
Proof.
  intros. apply (foldl_Set_add_length_eq []); [constructor|done].
Qed.

Lemma every_from_seqZ (i : nat) (l : list Z) :
  every_from i (λ n idx, n =? Z.of_nat idx + 1) l = true
  ↔ l = seqZ (Z.of_nat i + 1) (Z.of_nat (length l)).
Proof.
  revert i. induction l as [|x l IH]; intros i.
  - simpl. by rewrite seqZ_nil.
  - cbn [every_from length]. rewrite seqZ_cons by lia.
    replace (Z.pred (Z.of_nat (S (length l)))) with (Z.of_nat (length l))
      by lia.
    replace (Z.succ (Z.of_nat i + 1)) with (Z.of_nat (S i) + 1) by lia.
    rewrite andb_true_iff, IH, Z.eqb_eq.
    split; [intros [-> <-]; done|].
    intros Heq. by injection Heq as -> <-.
Qed.

Lemma Array_sort_numbers_seqZ (numbers : list Z) n :
  numbers ≡ₚ seqZ 1 n → Array_sort (λ a b, a - b) numbers = seqZ 1 n.
Proof.
  intros Hperm.
  rewrite <- (list_fmap_id (Array_sort _ numbers)).
  apply Array_sort_keys_seqZ; [done|]. by rewrite list_fmap_id.
Qed.

(** Once the count is right, the [isPermutation] test holds exactly of
    the permutations of [1..groupCount]. *)
Lemma isPermutation_spec numbers groupCount :
  Z.of_nat (length numbers) = groupCount →
  isPermutation numbers groupCount = true ↔ numbers ≡ₚ seqZ 1 groupCount.
Proof.
  intros Hlen. unfold isPermutation. split.
  - rewrite !andb_true_iff, Z.eqb_eq. intros [[Hu _] Hev].
    assert (NoDup numbers) as Hnd
      by (apply Array_from_Set_length_eq; lia).
    rewrite Array_from_Set_NoDup in Hev by done.
    apply every_from_seqZ in Hev.
    rewrite (Permutation_length (Array_sort_Permutation _ numbers)) in Hev.
    rewrite Hlen in Hev. change (Z.of_nat 0 + 1) with 1 in Hev.
    by rewrite <- Hev, Array_sort_Permutation.
  - intros Hperm.
    assert (NoDup numbers) as Hnd
      by (rewrite Hperm; apply NoDup_seqZ).
    rewrite Array_from_Set_NoDup by done.
    rewrite !andb_true_iff, Z.eqb_eq. split; [split; [done|]|].
    + apply forallb_forall. intros n Hn.
      apply list_elem_of_In in Hn. rewrite Hperm in Hn.
      apply elem_of_seqZ in Hn.
      apply andb_true_iff. rewrite !Z.leb_le. lia.
    + apply every_from_seqZ.
      rewrite (Array_sort_numbers_seqZ _ _ Hperm), length_seqZ.
      f_equal. rewrite <- Hlen. lia.
Qed.

Lemma keptNumbers_empty : keptNumbers [] = [].
Proof. reflexivity. Qed.

(** [parseHarvestOrder] in one line: the kept tokens if they are a
    permutation of [1..groupCount], the empty array otherwise. *)
Lemma parseHarvestOrder_eq value groupCount :
  parseHarvestOrder value groupCount
  = if decide (accepted (keptNumbers value) groupCount)
    then keptNumbers value else [].
Proof.
  unfold accepted. destruct value as [|c value].
  - rewrite keptNumbers_empty. by case_decide.
  - cbn [parseHarvestOrder].
    destruct (Z.eqb_spec (Z.of_nat (length (keptNumbers (c :: value))))
                groupCount) as [Hlen|Hlen]; cbn [negb].
    + pose proof (isPermutation_spec _ _ Hlen) as Hspec.
      destruct (isPermutation (keptNumbers (c :: value)) groupCount).
      * rewrite decide_True; [done|]. split; [done|]. by apply Hspec.
      * rewrite decide_False; [done|]. intros [_ Hp].
        apply Hspec in Hp. discriminate.
    + rewrite decide_False; [done|]. by intros [? _].
Qed.

Lemma Permutation_seqZ_accepted numbers groupCount :
  numbers ≡ₚ seqZ 1 groupCount →
  accepted numbers groupCount ∨ (numbers = [] ∧ groupCount < 0).
Proof.
  intros Hperm. destruct (decide (0 ≤ groupCount)) as [Hn|Hn].
  - left. split; [|done]. rewrite Hperm, length_seqZ. lia.
  - right. rewrite seqZ_nil in Hperm by lia.
    split; [by apply Permutation_nil_r|lia].
Qed.

Lemma rejected_iff numbers groupCount :
  rejected numbers groupCount ↔ ¬ accepted numbers groupCount.
Proof.
  unfold rejected, accepted, wrongCount, hasDuplicates, hasOutOfRange, hasGap.
  split.
  - intros Hrej [Hlen Hperm].
    destruct Hrej as [Hc|[Hd|[(n & Hn & Hr)|(k & Hk & Hg)]]].
    + done.
    + apply Hd. rewrite Hperm. apply NoDup_seqZ.
    + apply Hr. rewrite Hperm in Hn. apply elem_of_seqZ in Hn. lia.
    + apply Hg. rewrite Hperm. apply elem_of_seqZ. lia.
  - intros Hna.
    destruct (decide (Z.of_nat (length numbers) = groupCount)) as [Hlen|];
      [|by left].
    destruct (decide (NoDup numbers)) as [Hnd|]; [|by right; left].
    destruct (decide (Forall (λ n, 1 ≤ n ≤ groupCount) numbers))
      as [Hin|Hout].
    2:{ right; right; left.
        apply not_Forall_Exists, Exists_exists in Hout; [done|apply _]. }
    destruct (decide (Forall (λ k, k ∈ numbers) (seqZ 1 groupCount)))
      as [Hcov|Hgap].
    2:{ right; right; right.
        apply not_Forall_Exists, Exists_exists in Hgap as (k & Hk & Hknot);
          [|apply _].
        exists k. split; [|done]. apply elem_of_seqZ in Hk. lia. }
    exfalso. apply Hna. split; [done|].
    apply NoDup_Permutation; [done|apply NoDup_seqZ|].
    intros x. rewrite Forall_forall in Hin, Hcov. split.
    + intros Hx. apply elem_of_seqZ. specialize (Hin x Hx). lia.
    + apply Hcov.
Qed.

(** C6 as stated fails at [groupCount = 0]: the raw string "x" keeps no
    token, which is the right count, has no duplicate, no value out of
    range and leaves no gap in the empty range, and the result is still
    the empty array. *)
Lemma parseHarvestOrder_empty_counterexample :
  ¬ (parseHarvestOrder (lit "x") 0 = []
     ↔ rejected (keptNumbers (lit "x")) 0).
Proof.
  intros [Hrej _]. specialize (Hrej eq_refl).
  apply rejected_iff in Hrej. apply Hrej. by split.
Qed.

(** C6, amended.  For every raw string and every [groupCount] other than
    0, [parseHarvestOrder] returns the empty array exactly when the kept
    tokens have the wrong count, contain duplicates, contain a value
    outside [1..groupCount] or leave a gap; for every [groupCount] such
    tokens give the empty array, and a true permutation of
    [1..groupCount] is returned as the kept token sequence itself, in the
    order written. *)
Theorem parseHarvestOrder_rejects raw groupCount :
  let numbers := keptNumbers raw in
  (groupCount ≠ 0 →
   (parseHarvestOrder raw groupCount = [] ↔ rejected numbers groupCount))
  ∧ (rejected numbers groupCount → parseHarvestOrder raw groupCount = [])
  ∧ (numbers ≡ₚ seqZ 1 groupCount →
     parseHarvestOrder raw groupCount = numbers).
Proof.
  intros numbers. subst numbers. rewrite parseHarvestOrder_eq.
  split; [|split].
  - intros Hgc. rewrite rejected_iff. case_decide as Hacc; [|done].
    split; [|done]. intros Hnil. destruct Hacc as [Hlen _].
    rewrite Hnil in Hlen. simpl in Hlen. lia.
  - rewrite rejected_iff. intros Hna. by rewrite decide_False.
  - intros Hperm.
    destruct (Permutation_seqZ_accepted _ _ Hperm) as [Hacc|[Hnil _]].
    + by rewrite decide_True.
    + rewrite Hnil. by case_decide.
Qed.

Lemma parseHarvestOrder_rejects_witness :
  parseHarvestOrder (lit "3, 1 2") 3 = [3; 1; 2]
  ∧ parseHarvestOrder (lit "3, 1 1") 3 = []
  ∧ rejected (keptNumbers (lit "3, 1 4")) 3.
Proof.
  split; [|split].
  - apply (proj2 (proj2 (parseHarvestOrder_rejects (lit "3, 1 2") 3))).
    vm_compute.
    etrans; [apply perm_swap|]. apply perm_skip, perm_swap.
  - apply (proj1 (proj2 (parseHarvestOrder_rejects (lit "3, 1 1") 3))).
    right; left. vm_compute. intros Hnd.
    apply NoDup_cons in Hnd as [_ Hnd]. apply NoDup_cons in Hnd as [Hx _].
    apply Hx, list_elem_of_here.
  - apply (proj1 (parseHarvestOrder_rejects (lit "3, 1 4") 3));
      [lia | reflexivity].
Defined.

Lemma integral_positive num :
  Number_isInteger num = true → number_gt0 num = true →
  0 < number_toZ num.
Proof.
  destruct num as [|neg|neg m e]; try discriminate.
  destruct neg; [discriminate|]. cbn.
  intros Hint Hpos%Z.ltb_lt.
  destruct (Z.leb_spec 0 e) as [He|He].
  - apply Z.mul_pos_pos; [done|]. by apply Z.pow_pos_nonneg.
  - apply Z.eqb_eq in Hint.
    assert (0 < 2 ^ (- e)) as Hp by (apply Z.pow_pos_nonneg; lia).
    apply Z.div_str_pos. split; [done|].
    apply Z.mod_divide in Hint; [|lia].
    apply Z.divide_pos_le; done.
Qed.

Lemma elem_of_keptNumbers raw n :
  n ∈ keptNumbers raw ↔
  ∃ token, token ∈ split raw
           ∧ Number_isInteger (Number token) = true
           ∧ number_gt0 (Number token) = true
           ∧ n = number_toZ (Number token).
Proof.
  unfold keptNumbers. rewrite list_elem_of_fmap. split.
  - intros (num & -> & Hnum).
    apply list_elem_of_filter in Hnum as [Hkeep Hnum].
    apply list_elem_of_fmap in Hnum as (token & -> & Htok).
    apply andb_true_iff in Hkeep as [??]. eauto.
  - intros (token & Htok & Hint & Hpos & ->).
    exists (Number token). split; [done|].
    apply list_elem_of_filter. split.
    + by rewrite Hint, Hpos.
    + by apply list_elem_of_fmap_2.
Qed.

Lemma validateForm_result showErrors c :
  (validateForm showErrors c).2 = true ↔
  form_invalid (Component.form c) = false
  ∧ parseHarvestOrder (Form.harvestOrder (Component.form c))
      (Form.groupCount (Component.form c)) ≠ [].
Proof.
  unfold validateForm, validateForm_errors. cbn [snd].
  rewrite bool_decide_eq_true.
  destruct (form_invalid _); cbn.
  { split; [intros [=]|intros [[=] _]]. }
  destruct (parseHarvestOrder _ _) as [|n order]; cbn.
  { split; [intros [=]|intros [_ []]; done]. }
  destruct (cathodeSumMismatch _); cbn; split; done.
Qed.

(** C7.  [parseHarvestOrder] is a total function of the raw string: on
    the empty string it gives the empty array; every kept number is the
    positive integer that [Number] makes of some token, the other tokens
    being dropped; the result is the empty array unless the kept tokens
    are a permutation of [1..groupCount]; an empty result makes
    [validateForm] push the error-severity order finding and return
    false.  On "1, 2, x, 3" with [groupCount = 4] the token "x" converts
    to NaN, three numbers are kept, and the result is the empty array
    because 3 differs from 4. *)
Theorem parseHarvestOrder_total raw groupCount :
  parseHarvestOrder [] groupCount = []
  ∧ (∀ n, n ∈ keptNumbers raw →
          0 < n ∧ ∃ token, token ∈ split raw
                           ∧ Number_isInteger (Number token) = true
                           ∧ number_toZ (Number token) = n)
  ∧ (parseHarvestOrder raw groupCount = []
     ∨ parseHarvestOrder raw groupCount = keptNumbers raw
       ∧ keptNumbers raw ≡ₚ seqZ 1 groupCount)
  ∧ (∀ showErrors c,
       Form.harvestOrder (Component.form c) = raw →
       Form.groupCount (Component.form c) = groupCount →
       parseHarvestOrder raw groupCount = [] →
       msg_order ∈ validateForm_errors (Component.form c)
       ∧ Message.severity msg_order = error
       ∧ (validateForm showErrors c).2 = false)
  ∧ (split (lit "1, 2, x, 3") = [lit "1"; lit "2"; lit "x"; lit "3"]
     ∧ Number (lit "x") = NaN
     ∧ keptNumbers (lit "1, 2, x, 3") = [1; 2; 3]
     ∧ wrongCount (keptNumbers (lit "1, 2, x, 3")) 4
     ∧ parseHarvestOrder (lit "1, 2, x, 3") 4 = []).
Proof.
  split; [done|]. split; [|split; [|split]].
  - intros n (token & Htok & Hint & Hpos & ->)%elem_of_keptNumbers.
    split; [by apply integral_positive|eauto].
  - rewrite parseHarvestOrder_eq. case_decide as Hacc; [|by left].
    right. by destruct Hacc.
  - intros showErrors c Hraw Hgc Hnil. split; [|split; [done|]].
    + unfold validateForm_errors. rewrite Hraw, Hgc, Hnil. cbn.
      apply elem_of_app. right. apply list_elem_of_here.
    + apply not_true_is_false. intros [_ Hne]%validateForm_result.
      apply Hne. by rewrite Hraw, Hgc.
  - repeat split; vm_compute; congruence.
Qed.

Lemma parseHarvestOrder_total_witness :
  0 < 2
  ∧ parseHarvestOrder (lit "1, 2, x, 3") 4 = []
  ∧ (validateForm true (initialComponent malformedForm)).2 = false.
Proof.
  destruct (parseHarvestOrder_total (lit "1, 2, x, 3") 4)
    as (_ & Hkept & _ & Hval & _ & _ & _ & _ & Hres).
  split; [|split; [exact Hres|]].
  - apply (Hkept 2). vm_compute.
    apply list_elem_of_further, list_elem_of_here.
  - apply (Hval true (initialComponent malformedForm));
      [reflexivity | reflexivity | exact Hres].
Defined.

(** ** validateForm and generatePlan *)

Lemma validateForm_errors_severity f e :
  e ∈ validateForm_errors f →
  Message.severity e = error
  ∨ e = msg_cathodeSum ∧ cathodeSum f ≠ Form.anodeDays f.
Proof.
  unfold validateForm_errors, cathodeSumMismatch. intros He.
  destruct (form_invalid f), (bool_decide _),
    (Z.eqb_spec (cathodeSum f) (Form.anodeDays f));
    cbn in He; split_elem; auto.
Qed.

Lemma generatePlan_plan c :
  (validateForm true c).2 = true →
  Component.plan (generatePlan c) = buildPlan (formInputs (Component.form c)).
Proof.
  unfold generatePlan, validateForm. cbn [snd Component.form].
  intros ->. reflexivity.
Qed.

(** C8.  [validateForm] returns true exactly when none of its findings
    has severity error, that is, when the form is valid and the order
    parses to a non-empty array; the cathode sum plays no part in it.
    A finding is either of severity error or the cathode-sum warning, and
    the warning is among the findings exactly when [A + B + C] differs
    from [anodeDays].  Whenever [validateForm] returns true,
    [generatePlan] stores the plan built from the form, mismatch or not. *)
Theorem validateForm_errors_only showErrors c :
  let f := Component.form c in
  let errors := validateForm_errors f in
  ((validateForm showErrors c).2 = true
   ↔ ∀ e, e ∈ errors → Message.severity e ≠ error)
  ∧ ((validateForm showErrors c).2 = true
     ↔ form_invalid f = false
       ∧ parseHarvestOrder (Form.harvestOrder f) (Form.groupCount f) ≠ [])
  ∧ (∀ e, e ∈ errors → Message.severity e = error ∨ e = msg_cathodeSum)
  ∧ Message.severity msg_cathodeSum = warn
  ∧ (msg_cathodeSum ∈ errors ↔ cathodeSum f ≠ Form.anodeDays f)
  ∧ Component.messages (validateForm true c).1 = errors
  ∧ ((validateForm showErrors c).2 = true →
     Component.plan (generatePlan c) = buildPlan (formInputs f)).
Proof.
  intros f errors. subst f errors.
  split; [|split; [apply validateForm_result|split; [|split; [done|split;
    [|split; [done|]]]]]].
  - unfold validateForm. cbn [snd]. rewrite bool_decide_eq_true.
    rewrite length_zero_iff_nil. split.
    + intros Hnil e He Hsev.
      assert (e ∈ filter (λ e, Message.severity e = error)
                    (validateForm_errors (Component.form c))) as Hin
        by (by apply list_elem_of_filter).
      rewrite Hnil in Hin. by apply elem_of_nil in Hin.
    + intros Hall. apply elem_of_nil_inv. intros e.
      intros [Hsev He]%list_elem_of_filter. by apply (Hall e).
  - intros e He.
    destruct (validateForm_errors_severity _ _ He) as [?|[? _]]; auto.
  - split.
    + intros He.
      destruct (validateForm_errors_severity _ _ He) as [?|[_ ?]]; done.
    + intros Hne. unfold validateForm_errors, cathodeSumMismatch.
      destruct (Z.eqb_spec (cathodeSum (Component.form c))
                  (Form.anodeDays (Component.form c))); [done|].
      rewrite !elem_of_app. right; right. apply list_elem_of_here.
  - intros Hok. apply generatePlan_plan. exact Hok.
Qed.

Lemma validateForm_errors_only_witness :
  (validateForm true (initialComponent mismatchForm)).2 = true
  ∧ Component.messages (validateForm true (initialComponent mismatchForm)).1
    = [msg_cathodeSum]
  ∧ length (Component.plan (generatePlan (initialComponent mismatchForm)))
    = 8%nat
  ∧ validateForm_errors defaultForm = [].
Proof.
  assert ((validateForm true (initialComponent mismatchForm)).2 = true)
    as Hok by reflexivity.
  destruct (validateForm_errors_only true (initialComponent mismatchForm))
    as (_ & _ & _ & _ & _ & Hmsg & Hplan).
  split; [exact Hok|]. split; [rewrite Hmsg; reflexivity|].
  split; [rewrite (Hplan Hok); reflexivity|reflexivity].
Defined.

(** C9.  [Number] accepts more than plain decimal integers: "2.0" and
    "0x2" convert to the number 2 and "1e0" to the number 1, so such
    tokens are kept; "1, 2.0" with [groupCount = 2] parses to [1, 2]. *)
Theorem Number_accepts_other_spellings :
  Number (lit "2.0") = Number (lit "2")
  ∧ Number (lit "0x2") = Number (lit "2")
  ∧ Number (lit "1e0") = Number (lit "1")
  ∧ keptNumbers (lit "2.0 0x2 1e0") = [2; 2; 1]
  ∧ parseHarvestOrder (lit "1, 2.0") 2 = [1; 2]
  ∧ parseHarvestOrder (lit "1, 0x2") 2 = [1; 2]
  ∧ parseHarvestOrder (lit "1e0, 2") 2 = [1; 2].
Proof. repeat split; vm_compute; reflexivity. Qed.

(** C10.  For [groupCount <= 0] every raw string parses to the empty
    array.  At [groupCount = 0] this includes the success path: "x" is a
    non-empty string, keeps no token, so the count is right and
    [isPermutation] holds, and the array returned is the (empty) array of
    kept tokens, equal to the failure value. *)
Theorem parseHarvestOrder_no_groups :
  (∀ raw groupCount,
     groupCount ≤ 0 → parseHarvestOrder raw groupCount = [])
  ∧ (lit "x" ≠ []
     ∧ keptNumbers (lit "x") = []
     ∧ (Z.of_nat (length (keptNumbers (lit "x"))) =? 0) = true
     ∧ isPermutation (keptNumbers (lit "x")) 0 = true
     ∧ parseHarvestOrder (lit "x") 0 = keptNumbers (lit "x")).
Proof.
  split.
  - intros raw groupCount Hgc. rewrite parseHarvestOrder_eq.
    case_decide as Hacc; [|done]. destruct Hacc as [Hlen _].
    destruct (keptNumbers raw); [done|]. simpl in Hlen. lia.
  - repeat split; vm_compute; congruence.
Qed.

Lemma parseHarvestOrder_no_groups_witness :
  parseHarvestOrder (lit "1, 2") 0 = []
  ∧ parseHarvestOrder (lit "1") (-1) = [].
Proof.
  split; apply (proj1 parseHarvestOrder_no_groups); lia.
Defined.

(** * Further properties of the component *)

(** ** Validation gates plan generation *)

Lemma form_invalid_false f :
  form_invalid f = false ↔
  1 ≤ Form.groupCount f ≤ 100 ∧ 1 ≤ Form.anodeDays f ≤ 365
  ∧ 0 ≤ Form.cathodeA f ∧ 0 ≤ Form.cathodeB f ∧ 0 ≤ Form.cathodeC f
  ∧ 0 ≤ Form.cleaningDays f ≤ 60
  ∧ Form.harvestOrder f ≠ []
  ∧ 0 ≤ Form.groupStartOffsetDays f ≤ 30.
Proof.
  unfold form_invalid, Validators_min, Validators_max, Validators_required.
  rewrite negb_false_iff, !andb_true_iff, !Z.leb_le.
  destruct (Form.harvestOrder f); intuition congruence.
Qed.

Lemma parseHarvestOrder_nonempty raw groupCount :
  parseHarvestOrder raw groupCount ≠ [] →
  parseHarvestOrder raw groupCount = keptNumbers raw
  ∧ accepted (keptNumbers raw) groupCount.
Proof.
  rewrite parseHarvestOrder_eq. by case_decide.
Qed.

Lemma validateForm_valid_inputs showErrors c :
  (validateForm showErrors c).2 = true →
  let inputs := formInputs (Component.form c) in
  valid_inputs inputs
  ∧ HarvestPlanInputs.groupCount inputs ≤ 100
  ∧ HarvestPlanInputs.anodeDays inputs ≤ 365
  ∧ HarvestPlanInputs.cleaningDays inputs ≤ 60
  ∧ HarvestPlanInputs.groupStartOffsetDays inputs ≤ 30
  ∧ HarvestPlanInputs.harvestOrder inputs
    = keptNumbers (Form.harvestOrder (Component.form c)).
Proof.
  intros [Hform Hord]%validateForm_result.
  apply form_invalid_false in Hform.
  apply parseHarvestOrder_nonempty in Hord as [Heq [_ Hperm]].
  cbn zeta. split.
  - split; cbn -[parseHarvestOrder keptNumbers seqZ]; try lia.
    by rewrite Heq.
  - cbn -[parseHarvestOrder keptNumbers seqZ].
    split; [lia|]. split; [lia|]. split; [lia|]. split; [lia|done].
Qed.

(** Whenever [validateForm] returns true, the [inputs] object that
    [generatePlan] hands to [buildPlan] is valid: the numeric fields are
    within the validators' ranges and the parsed order is a permutation of
    [1..groupCount]. *)
Theorem validateForm_gates_buildPlan showErrors c :
  (validateForm showErrors c).2 = true →
  let inputs := formInputs (Component.form c) in
  valid_inputs inputs
  ∧ HarvestPlanInputs.groupCount inputs ≤ 100
  ∧ HarvestPlanInputs.anodeDays inputs ≤ 365
  ∧ HarvestPlanInputs.cleaningDays inputs ≤ 60
  ∧ HarvestPlanInputs.groupStartOffsetDays inputs ≤ 30
  ∧ HarvestPlanInputs.harvestOrder inputs
    = keptNumbers (Form.harvestOrder (Component.form c)).
Proof. apply validateForm_valid_inputs. Qed.

Lemma validateForm_gates_buildPlan_witness :
  valid_inputs (formInputs mismatchForm).
Proof.
  exact (proj1 (validateForm_gates_buildPlan true
                  (initialComponent mismatchForm) eq_refl)).
Defined.

(** ** generatePlan *)

Lemma validateForm_snd_form showErrors showErrors' c c' :
  Component.form c = Component.form c' →
  (validateForm showErrors c).2 = (validateForm showErrors' c').2.
Proof. unfold validateForm. cbn. by intros ->. Qed.

Lemma generatePlan_unfold c :
  generatePlan c
  = let f := Component.form c in
    if (validateForm true c).2
    then
      let plan := buildPlan (formInputs f) in
      let maxPlanDay :=
        foldl (λ max gp, Z.max max (GroupPlan.endDay gp)) 0 plan in
      Component.mk f plan maxPlanDay
        (Z.max 42 (if maxPlanDay =? 0 then 0 else maxPlanDay))
        (validateForm_errors f)
    else
      Component.mk f [] 0 (Component.timelineDays c) (validateForm_errors f).
Proof.
  unfold generatePlan, validateForm. cbn.
  by destruct (bool_decide _).
Qed.

(** When validation fails, [generatePlan] clears the plan, sets
    [maxPlanDay] to 0, leaves [timelineDays] and the form as they were,
    shows a finding of severity error, and a following [exportCsv]
    exports nothing. *)
Theorem generatePlan_failure c :
  (validateForm true c).2 = false →
  let c' := generatePlan c in
  Component.plan c' = []
  ∧ Component.maxPlanDay c' = 0
  ∧ Component.timelineDays c' = Component.timelineDays c
  ∧ Component.form c' = Component.form c
  ∧ (∃ e, e ∈ Component.messages c' ∧ Message.severity e = error)
  ∧ exportCsv c' = None.
Proof.
  intros Hfail. cbn zeta. rewrite generatePlan_unfold. cbn zeta.
  rewrite Hfail. cbn. repeat split.
  unfold validateForm in Hfail. cbn in Hfail.
  apply bool_decide_eq_false in Hfail.
  destruct (filter _ _) as [|e l] eqn:Hf; [done|].
  exists e.
  assert (e ∈ filter (λ e, Message.severity e = error)
                (validateForm_errors (Component.form c))) as He
    by (rewrite Hf; apply list_elem_of_here).
  apply list_elem_of_filter in He as [??]. done.
Qed.

Lemma generatePlan_failure_witness :
  Component.plan (generatePlan (initialComponent malformedForm)) = []
  ∧ exportCsv (generatePlan (initialComponent malformedForm)) = None.
Proof.
  destruct (generatePlan_failure (initialComponent malformedForm) eq_refl)
    as (Hplan & _ & _ & _ & _ & Hcsv).
  split; [exact Hplan | exact Hcsv].
Defined.

Lemma buildPlan_step_endDay inputs index groupNumber :
  GroupPlan.endDay (buildPlan_step inputs index groupNumber)
  = 1 + Z.of_nat index * HarvestPlanInputs.groupStartOffsetDays inputs
    + HarvestPlanInputs.anodeDays inputs
    + (if 0 <? HarvestPlanInputs.cleaningDays inputs
       then HarvestPlanInputs.cleaningDays inputs else 0).
Proof.
  unfold buildPlan_step.
  destruct (HarvestPlanInputs.cathodePhases inputs) as [[??]?].
  destruct (0 <? _); cbn; lia.
Qed.

Lemma foldl_max_spec {A} (key : A → Z) (l : list A) (a : Z) :
  let r := foldl (λ max x, Z.max max (key x)) a l in
  a ≤ r ∧ (∀ x, x ∈ l → key x ≤ r) ∧ (r = a ∨ ∃ x, x ∈ l ∧ r = key x).
Proof.
  revert a. induction l as [|y l IH]; intros a; cbn.
  - split; [lia|]. split; [|by left]. intros x Hx. by apply elem_of_nil in Hx.
  - destruct (IH (Z.max a (key y))) as (Hle & Hall & Hex).
    split; [lia|]. split.
    + intros x [->|Hx]%elem_of_cons; [lia|by apply Hall].
    + destruct Hex as [Hr|(x & Hx & Hr)].
      * rewrite Hr.
        destruct (Z.max_spec a (key y)) as [[_ Hm]|[_ Hm]];
          [right; exists y|by left].
        split; [apply list_elem_of_here|done].
      * right. exists x. split; [by apply list_elem_of_further|done].
Qed.

(** After a successful validation [generatePlan] stores one plan per
    group, listed by ascending group number [1..groupCount]; the stored
    messages are the findings of the validation, which can only be the
    cathode-sum warning; the form is untouched. *)
Theorem generatePlan_success c :
  (validateForm true c).2 = true →
  let f := Component.form c in
  let c' := generatePlan c in
  Component.form c' = f
  ∧ GroupPlan.group <$> Component.plan c' = seqZ 1 (Form.groupCount f)
  ∧ Z.of_nat (length (Component.plan c')) = Form.groupCount f
  ∧ Component.messages c' = validateForm_errors f
  ∧ (∀ e, e ∈ Component.messages c' → e = msg_cathodeSum).
Proof.
  intros Hok. cbn zeta. rewrite generatePlan_unfold. cbn zeta.
  rewrite Hok. cbn [Component.form Component.plan Component.messages].
  destruct (validateForm_valid_inputs _ _ Hok) as ([Hgc _ _ _ _ Hperm] & _).
  pose proof (buildPlan_groups _ Hperm) as Hg.
  cbn [formInputs HarvestPlanInputs.groupCount] in Hg, Hgc.
  split; [done|]. split; [done|]. split; [|split; [done|]].
  - rewrite <- (length_fmap GroupPlan.group), Hg, length_seqZ. lia.
  - intros e He.
    destruct (validateForm_errors_severity _ _ He) as [Hsev|[-> _]]; [|done].
    unfold validateForm in Hok. cbn [snd] in Hok.
    apply bool_decide_eq_true, length_zero_iff_nil in Hok.
    assert (e ∈ filter (λ e, Message.severity e = error)
                  (validateForm_errors (Component.form c))) as Hin
      by (by apply list_elem_of_filter).
    rewrite Hok in Hin. by apply elem_of_nil in Hin.
Qed.

Lemma generatePlan_success_witness :
  GroupPlan.group
    <$> Component.plan (generatePlan (initialComponent mismatchForm))
  = seqZ 1 8
  ∧ Component.messages (generatePlan (initialComponent mismatchForm))
    = [msg_cathodeSum].
Proof.
  destruct (generatePlan_success (initialComponent mismatchForm) eq_refl)
    as (_ & Hg & _ & Hm & _).
  split; [exact Hg | rewrite Hm; reflexivity].
Defined.

Lemma generatePlan_days c :
  (validateForm true c).2 = true →
  let f := Component.form c in
  let c' := generatePlan c in
  Component.maxPlanDay c'
  = 1 + (Form.groupCount f - 1) * Form.groupStartOffsetDays f
    + Form.anodeDays f + Form.cleaningDays f
  ∧ Component.timelineDays c' = Z.max 42 (Component.maxPlanDay c')
  ∧ ∀ p, p ∈ Component.plan c' →
         1 ≤ GroupPlan.startDay p
         ∧ GroupPlan.startDay p < GroupPlan.endDay p
         ∧ GroupPlan.endDay p ≤ Component.maxPlanDay c'.
Proof.
  intros Hok. cbn zeta. rewrite generatePlan_unfold. cbn zeta.
  rewrite Hok.
  cbn [Component.maxPlanDay Component.timelineDays Component.plan].
  destruct (validateForm_valid_inputs _ _ Hok)
    as ([Hgc Han _ Hcl Hoff Hperm] & _).
  cbn [formInputs HarvestPlanInputs.groupCount HarvestPlanInputs.anodeDays
       HarvestPlanInputs.cleaningDays HarvestPlanInputs.groupStartOffsetDays]
    in Hgc, Han, Hcl, Hoff.
  set (f := Component.form c) in *. set (inputs := formInputs f) in *.
  assert (Hend : ∀ i g,
    GroupPlan.endDay (buildPlan_step inputs i g)
    = 1 + Z.of_nat i * Form.groupStartOffsetDays f
      + Form.anodeDays f + Form.cleaningDays f).
  { intros i g. rewrite buildPlan_step_endDay. subst inputs.
    cbn [formInputs HarvestPlanInputs.anodeDays HarvestPlanInputs.cleaningDays
         HarvestPlanInputs.groupStartOffsetDays].
    destruct (Z.ltb_spec 0 (Form.cleaningDays f)); lia. }
  assert (Hlen : Z.of_nat (length (HarvestPlanInputs.harvestOrder inputs))
                 = Form.groupCount f).
  { rewrite Hperm, length_seqZ. subst inputs.
    cbn [formInputs HarvestPlanInputs.groupCount]. lia. }
  set (M := 1 + (Form.groupCount f - 1) * Form.groupStartOffsetDays f
            + Form.anodeDays f + Form.cleaningDays f).
  assert (Hbound : ∀ p, p ∈ buildPlan inputs →
            1 ≤ GroupPlan.startDay p
            ∧ GroupPlan.startDay p < GroupPlan.endDay p
            ∧ GroupPlan.endDay p ≤ M).
  { intros p (i & g & Hi & ->)%elem_of_buildPlan.
    apply lookup_lt_Some in Hi.
    rewrite Hend, buildPlan_step_startDay. subst inputs M.
    cbn [formInputs HarvestPlanInputs.groupStartOffsetDays]. nia. }
  assert (Hlast : ∃ p, p ∈ buildPlan inputs ∧ GroupPlan.endDay p = M).
  { destruct (lookup_lt_is_Some_2 (HarvestPlanInputs.harvestOrder inputs)
                (Z.to_nat (Form.groupCount f - 1))) as [g Hg]; [lia|].
    exists (buildPlan_step inputs (Z.to_nat (Form.groupCount f - 1)) g).
    split; [apply elem_of_buildPlan; eauto|].
    rewrite Hend. subst M. rewrite Z2Nat.id by lia. done. }
  destruct (foldl_max_spec GroupPlan.endDay (buildPlan inputs) 0)
    as (H0 & Hall & Hex).
  set (r := foldl _ 0 (buildPlan inputs)) in *.
  assert (r = M) as Hr.
  { destruct Hlast as (pl & Hpl & Hpm). specialize (Hall pl Hpl).
    destruct Hex as [Hz|(x & Hx & Hrx)].
    - destruct (Hbound pl Hpl). lia.
    - destruct (Hbound x Hx) as (_ & _ & ?). lia. }
  rewrite Hr. split; [done|]. split; [|done].
  destruct (Z.eqb_spec M 0); [|done]. subst M. nia.
Qed.

(** After a successful validation, [maxPlanDay] is the end day of the
    group started last, [1 + (groupCount - 1) * groupStartOffsetDays +
    anodeDays + cleaningDays]; [timelineDays] is the larger of 42 and
    [maxPlanDay]; and every stored plan starts on day 1 or later and ends
    after its start, on [maxPlanDay] at the latest. *)
Theorem generatePlan_maxPlanDay c :
  (validateForm true c).2 = true →
  let f := Component.form c in
  let c' := generatePlan c in
  Component.maxPlanDay c'
  = 1 + (Form.groupCount f - 1) * Form.groupStartOffsetDays f
    + Form.anodeDays f + Form.cleaningDays f
  ∧ Component.timelineDays c' = Z.max 42 (Component.maxPlanDay c')
  ∧ ∀ p, p ∈ Component.plan c' →
         1 ≤ GroupPlan.startDay p
         ∧ GroupPlan.startDay p < GroupPlan.endDay p
         ∧ GroupPlan.endDay p ≤ Component.maxPlanDay c'.
Proof. apply generatePlan_days. Qed.

Lemma generatePlan_maxPlanDay_witness :
  Component.maxPlanDay (generatePlan (initialComponent defaultForm)) = 22
  ∧ Component.timelineDays (generatePlan (initialComponent defaultForm)) = 42.
Proof.
  destruct (generatePlan_maxPlanDay (initialComponent defaultForm) eq_refl)
    as (Hm & Ht & _).
  split; [exact Hm | rewrite Ht, Hm; reflexivity].
Defined.

(** The phases of a plan against the plan's own span, for valid inputs:
    the anode and cleaning phases lie between the plan's [startDay] and
    [endDay]; so do the cathode phases when [A + B + C <= anodeDays]. *)
Lemma phase_within_plan inputs p ph :
  valid_inputs inputs →
  p ∈ buildPlan inputs →
  ph ∈ GroupPlan.phases p →
  PlanPhase.type ph = anode ∨ PlanPhase.type ph = cleaning
  ∨ (HarvestPlanInputs.cathodePhases inputs).1.1
    + (HarvestPlanInputs.cathodePhases inputs).1.2
    + (HarvestPlanInputs.cathodePhases inputs).2
    ≤ HarvestPlanInputs.anodeDays inputs →
  GroupPlan.startDay p ≤ PlanPhase.startDay ph
  ∧ PlanPhase.endDay ph ≤ GroupPlan.endDay p.
Proof.
  intros [Hgc Han Hcath Hcl Hoff _] Hp Hph Hcase. plan_cases Hp.
  unfold buildPlan_step in Hph.
  destruct (HarvestPlanInputs.cathodePhases inputs)
    as [[cathodeA cathodeB] cathodeC].
  cbn in Hph, Hcath, Hcase. destruct Hcath as (HA & HB & HC).
  destruct (Z.ltb_spec 0 (HarvestPlanInputs.cleaningDays inputs));
    split_elem; cbn in Hcase |- *;
    (destruct Hcase as [Hc|[Hc|Hc]]; try discriminate Hc; lia).
Qed.

(** After a successful validation [maxDaysArray] lists the days
    [1..timelineDays], at least 42 of them, and contains every day from
    [startDay] to [endDay] of every stored plan, every day of every anode
    and cleaning phase, and every day of the cathode phases when the
    cathode durations sum to [anodeDays] or less. *)
Theorem maxDaysArray_covers_plan c :
  (validateForm true c).2 = true →
  let f := Component.form c in
  let c' := generatePlan c in
  Z.of_nat (length (maxDaysArray c')) = Component.timelineDays c'
  ∧ 42 ≤ Component.timelineDays c'
  ∧ ∀ p, p ∈ Component.plan c' →
      (∀ d, GroupPlan.startDay p ≤ d ≤ GroupPlan.endDay p →
            d ∈ maxDaysArray c')
      ∧ ∀ ph, ph ∈ GroupPlan.phases p →
          PlanPhase.type ph = anode ∨ PlanPhase.type ph = cleaning
          ∨ cathodeSum f ≤ Form.anodeDays f →
          ∀ d, PlanPhase.startDay ph ≤ d ≤ PlanPhase.endDay ph →
               d ∈ maxDaysArray c'.
Proof.
  intros Hok. cbn zeta.
  destruct (generatePlan_days c Hok) as (_ & Htl & Hbound).
  destruct (validateForm_valid_inputs _ _ Hok) as (Hvalid & _).
  assert (Hplan : Component.plan (generatePlan c)
                  = buildPlan (formInputs (Component.form c)))
    by (by apply generatePlan_plan).
  unfold maxDaysArray. rewrite length_seqZ.
  split; [lia|]. split; [lia|].
  intros p Hp. destruct (Hbound p Hp) as (Hs & _ & He). split.
  - intros d Hd. apply elem_of_seqZ. lia.
  - intros ph Hph Hcase d Hd. rewrite Hplan in Hp.
    destruct (phase_within_plan _ p ph Hvalid Hp Hph Hcase).
    apply elem_of_seqZ. lia.
Qed.

Lemma maxDaysArray_covers_plan_witness :
  length (maxDaysArray (generatePlan (initialComponent defaultForm)))
  = 42%nat.
Proof.
  apply Nat2Z.inj.
  rewrite (proj1 (maxDaysArray_covers_plan (initialComponent defaultForm)
                    eq_refl)).
  reflexivity.
Defined.

(** [generatePlan] is idempotent: running it again on its own result
    changes nothing. *)
Theorem generatePlan_idempotent c :
  generatePlan (generatePlan c) = generatePlan c.
Proof.
  assert (Hf : Component.form (generatePlan c) = Component.form c).
  { rewrite generatePlan_unfold. cbn zeta.
    by destruct (validateForm true c).2. }
  rewrite (generatePlan_unfold (generatePlan c)). cbn zeta.
  rewrite (validateForm_snd_form true true (generatePlan c) c Hf), Hf.
  rewrite (generatePlan_unfold c). cbn zeta.
  by destruct (validateForm true c).2.
Qed.

(** ** normalizeCathodes *)

Lemma normalizeCathodes_aux c :
  let f := Component.form c in
  let f' := Component.form (normalizeCathodes c) in
  (form_invalid f = false → form_invalid f' = false)
  ∧ parseHarvestOrder (Form.harvestOrder f') (Form.groupCount f')
    = parseHarvestOrder (Form.harvestOrder f) (Form.groupCount f)
  ∧ (Form.cathodeA f + Form.cathodeB f ≤ Form.anodeDays f →
     cathodeSumMismatch f' = false).
Proof.
  cbn zeta. unfold normalizeCathodes, cathodeSumMismatch, cathodeSum.
  cbn [Component.form Form.cathodeA Form.cathodeB Form.cathodeC Form.anodeDays
       Form.harvestOrder Form.groupCount].
  split; [|split; [done|]].
  - rewrite !form_invalid_false. cbn.
    intros (? & ? & ? & ? & ? & ? & ? & ?). repeat split; try lia. done.
  - intros Hle. apply negb_false_iff, Z.eqb_eq. lia.
Qed.

(** [normalizeCathodes] changes [cathodeC] and nothing else: every other
    form field and the plan, [maxPlanDay], [timelineDays] and messages of
    the component are kept.  The new [cathodeC] is never negative, a valid
    form stays valid, the order parses as before, and the method is
    idempotent.  For fields of magnitude up to 2^51, where the arithmetic
    of JavaScript numbers is exact, the new [cathodeC] is
    [max (anodeDays - cathodeA - cathodeB) 0]: when
    [cathodeA + cathodeB <= anodeDays] the three durations then sum to
    [anodeDays]; otherwise [cathodeC] becomes 0 and the sum still exceeds
    [anodeDays]. *)
Theorem normalizeCathodes_sum c :
  let f := Component.form c in
  let c' := normalizeCathodes c in
  let f' := Component.form c' in
  c' = Component.mk
         (Form.mk (Form.groupCount f) (Form.anodeDays f) (Form.cathodeA f)
            (Form.cathodeB f) (Form.cathodeC f') (Form.cleaningDays f)
            (Form.harvestOrder f) (Form.groupStartOffsetDays f))
         (Component.plan c) (Component.maxPlanDay c)
         (Component.timelineDays c) (Component.messages c)
  ∧ 0 ≤ Form.cathodeC f'
  ∧ (form_invalid f = false → form_invalid f' = false)
  ∧ parseHarvestOrder (Form.harvestOrder f') (Form.groupCount f')
    = parseHarvestOrder (Form.harvestOrder f) (Form.groupCount f)
  ∧ normalizeCathodes c' = c'
  ∧ (Z.abs (Form.anodeDays f) ≤ 2 ^ 51
     ∧ Z.abs (Form.cathodeA f) ≤ 2 ^ 51
     ∧ Z.abs (Form.cathodeB f) ≤ 2 ^ 51 →
     Form.cathodeC f'
     = Z.max (Form.anodeDays f - Form.cathodeA f - Form.cathodeB f) 0
     ∧ (Form.cathodeA f + Form.cathodeB f ≤ Form.anodeDays f →
        cathodeSum f' = Form.anodeDays f' ∧ cathodeSumMismatch f' = false)
     ∧ (Form.anodeDays f < Form.cathodeA f + Form.cathodeB f →
        Form.cathodeC f' = 0 ∧ cathodeSumMismatch f' = true)).
Proof.
  cbn zeta.
  split; [reflexivity|]. split; [|split; [|split; [|split]]].
  - unfold normalizeCathodes. cbn. lia.
  - apply (proj1 (normalizeCathodes_aux c)).
  - reflexivity.
  - reflexivity.
  - intros _. unfold normalizeCathodes, cathodeSumMismatch, cathodeSum.
    cbn [Component.form Form.cathodeA Form.cathodeB Form.cathodeC
         Form.anodeDays].
    split; [reflexivity|]. split.
    + intros Hle. rewrite Z.max_l by lia. split; [lia|].
      apply negb_false_iff, Z.eqb_eq. lia.
    + intros Hgt. rewrite Z.max_r by lia. split; [done|].
      apply negb_true_iff, Z.eqb_neq. lia.
Qed.

Lemma normalizeCathodes_sum_witness :
  Form.cathodeC
    (Component.form (normalizeCathodes (initialComponent mismatchForm))) = 4
  ∧ cathodeSumMismatch
      (Component.form (normalizeCathodes (initialComponent mismatchForm)))
    = false.
Proof.
  destruct (normalizeCathodes_sum (initialComponent mismatchForm))
    as (_ & _ & _ & _ & _ & Hval).
  destruct Hval as (HC & Hle & _); [simpl; lia|].
  split; [rewrite HC; reflexivity|].
  apply Hle. simpl. lia.
Defined.

(** After [normalizeCathodes], a form that passed validation and has
    [cathodeA + cathodeB <= anodeDays] validates with no finding at all. *)
Theorem normalizeCathodes_clears_warning showErrors c :
  (validateForm showErrors c).2 = true →
  Form.cathodeA (Component.form c) + Form.cathodeB (Component.form c)
  ≤ Form.anodeDays (Component.form c) →
  validateForm_errors (Component.form (normalizeCathodes c)) = [].
Proof.
  intros [Hform Hord]%validateForm_result Hle.
  destruct (normalizeCathodes_aux c) as (Hinv & Hparse & Hsum).
  unfold validateForm_errors.
  rewrite (Hinv Hform), Hparse, (Hsum Hle).
  destruct (parseHarvestOrder _ _); [done|]. reflexivity.
Qed.

Lemma normalizeCathodes_clears_warning_witness :
  validateForm_errors
    (Component.form (normalizeCathodes (initialComponent mismatchForm))) = [].
Proof.
  apply (normalizeCathodes_clears_warning true); [reflexivity|].
  simpl. lia.
Defined.

(** ** Decimal tokens *)

Lemma isDigit_10_range c :
  isDigit 10 c = true ↔ (48 ≤ c ≤ 57)%N.
Proof.
  unfold isDigit, digitValue.
  repeat match goal with
    | |- context [(?a <=? ?b)%N] => destruct (N.leb_spec a b)
    end; cbn; rewrite ?Z.ltb_lt; split; intros; try lia; try discriminate.
Qed.

Lemma digitValue_decimal c :
  (48 ≤ c ≤ 57)%N → digitValue c = Some (Z.of_N c - 48).
Proof.
  intros Hc. unfold digitValue.
  destruct (N.leb_spec 48 c), (N.leb_spec c 57); cbn; (done || lia).
Qed.

Lemma round_half_even_1 n : round_half_even n 1 = n.
Proof.
  unfold round_half_even. rewrite Z.mod_1_r, Z.div_1_r. reflexivity.
Qed.

(** An integer below 2^53 is a binary64 value: rounding leaves it as it
    is. *)
Lemma roundToDouble_exact k :
  0 < k < 2 ^ 53 →
  let num := roundToDouble false k 1 in
  Number_isInteger num = true ∧ number_gt0 num = true ∧ number_toZ num = k.
Proof.
  intros [Hpos Hlt]. cbn zeta. unfold roundToDouble.
  destruct (Z.eqb_spec k 0) as [|_]; [lia|].
  assert (0 ≤ Z.log2 k < 53) as Hlog.
  { split; [apply Z.log2_nonneg|]. by apply Z.log2_lt_pow2. }
  assert (ilog2_ratio k 1 = Z.log2 k) as ->.
  { unfold ilog2_ratio. change (Z.log2 1) with 0. rewrite Z.sub_0_r.
    destruct (Z.leb_spec 0 (Z.log2 k)) as [_|]; [|lia].
    destruct (Z.ltb_spec k (1 * 2 ^ Z.log2 k)) as [Hb|_]; [|done].
    pose proof (Z.log2_spec k Hpos). lia. }
  rewrite Z.max_l by lia.
  destruct (Z.leb_spec 0 (Z.log2 k - 52)) as [Hk|Hk].
  - assert (Z.log2 k - 52 = 0) as -> by lia.
    change (1 * 2 ^ 0) with 1. rewrite round_half_even_1.
    destruct (Z.leb_spec 1024 (Z.log2 k + 0)) as [|_]; [lia|].
    cbn. rewrite Z.mul_1_r. split; [done|]. split; [|done].
    by apply Z.ltb_lt.
  - rewrite round_half_even_1.
    assert (- (Z.log2 k - 52) = 52 - Z.log2 k) as -> by lia.
    assert (0 < 2 ^ (52 - Z.log2 k)) as Hp by (apply Z.pow_pos_nonneg; lia).
    rewrite Z.log2_mul_pow2 by lia.
    destruct (Z.leb_spec 1024 (52 - Z.log2 k + Z.log2 k + (Z.log2 k - 52)))
      as [|_]; [lia|].
    cbn [Number_isInteger number_gt0 number_toZ].
    destruct (Z.leb_spec 0 (Z.log2 k - 52)) as [|_]; [lia|].
    assert (- (Z.log2 k - 52) = 52 - Z.log2 k) as -> by lia.
    rewrite Z.mod_mul, Z.div_mul by lia.
    split; [done|]. split; [|done]. apply Z.ltb_lt. lia.
Qed.

Lemma decimalDigit_cases c :
  decimalDigit c →
  (c = 48 ∨ c = 49 ∨ c = 50 ∨ c = 51 ∨ c = 52
   ∨ c = 53 ∨ c = 54 ∨ c = 55 ∨ c = 56 ∨ c = 57)%N.
Proof. unfold decimalDigit. lia. Qed.

Lemma decimalDigit_not_space c : decimalDigit c → isWhiteSpace c = false.
Proof.
  intros Hc. apply decimalDigit_cases in Hc.
  repeat (destruct Hc as [->|Hc]; [reflexivity|]). by subst.
Qed.

Lemma decimalDigit_not_separator c : decimalDigit c → isSeparator c = false.
Proof.
  intros Hc. apply decimalDigit_cases in Hc.
  repeat (destruct Hc as [->|Hc]; [reflexivity|]). by subst.
Qed.

Lemma trim_digits ds : Forall decimalDigit ds → trim ds = ds.
Proof.
  intros Hds. unfold trim.
  assert (Hdrop : ∀ s, Forall decimalDigit s → dropWhiteSpace s = s).
  { intros [|c s] Hs; [done|]. cbn.
    by rewrite decimalDigit_not_space by (by inversion Hs). }
  rewrite (Hdrop ds Hds), Hdrop; [apply rev_involutive|].
  apply Forall_forall. intros c Hc.
  apply list_elem_of_In, in_rev, list_elem_of_In in Hc.
  by apply (proj1 (Forall_forall _ _) Hds).
Qed.

Lemma spanDigits_all ds : Forall decimalDigit ds → spanDigits ds = (ds, []).
Proof.
  induction 1 as [|c ds Hc _ IH]; [done|]. cbn.
  by rewrite (proj2 (isDigit_10_range c) Hc), IH.
Qed.

Lemma parseNonDecimal_digits ds :
  Forall decimalDigit ds → parseNonDecimal ds = None.
Proof.
  intros Hds. destruct ds as [|c [|p ds]]; [done| |].
  - apply Forall_cons in Hds as [Hc _]. apply decimalDigit_cases in Hc.
    repeat (destruct Hc as [->|Hc]; [reflexivity|]). by subst.
  - apply Forall_cons in Hds as [Hc Hds].
    apply Forall_cons in Hds as [Hp _]. unfold decimalDigit in Hp.
    assert (∀ r : option Z,
      (if ((p =? 120) || (p =? 88))%N then Some 16
       else if ((p =? 111) || (p =? 79))%N then Some 8
       else if ((p =? 98) || (p =? 66))%N then Some 2 else None) = None)
      as Hradix.
    { intros _.
      repeat match goal with
        | |- context [(p =? ?a)%N] => destruct (N.eqb_spec p a); [lia|]
        end. done. }
    apply decimalDigit_cases in Hc.
    repeat (destruct Hc as [->|Hc]; [try reflexivity|]); subst;
      try reflexivity.
    cbn. by rewrite (Hradix None).
Qed.

(** [Number] on a string of decimal digits writing an integer between 1
    and 2^53 - 1 is that integer. *)
Lemma Number_digits ds :
  ds ≠ [] → Forall decimalDigit ds →
  0 < digitsValue 10 ds < 2 ^ 53 →
  Number_isInteger (Number ds) = true
  ∧ number_gt0 (Number ds) = true
  ∧ number_toZ (Number ds) = digitsValue 10 ds.
Proof.
  intros Hne Hds Hval.
  assert (Number ds = roundToDouble false (digitsValue 10 ds) 1) as ->;
    [|by apply roundToDouble_exact].
  unfold Number. rewrite trim_digits by done.
  destruct ds as [|c t]; [done|].
  assert (parseUnsigned false (c :: t)
          = roundToDouble false (digitsValue 10 (c :: t)) 1) as Hpu.
  { unfold parseUnsigned.
    rewrite bool_decide_eq_false_2.
    2:{ intros [= -> _]. apply Forall_cons in Hds as [Hc _].
        unfold decimalDigit in Hc. lia. }
    unfold parseUnsignedDecimal. rewrite spanDigits_all by done.
    cbn [parseExponent length]. rewrite app_nil_r.
    change (0 <=? 0 - Z.of_nat 0) with true. cbv iota.
    by rewrite Z.pow_0_r, Z.mul_1_r. }
  pose proof (parseNonDecimal_digits _ Hds) as Hnd.
  apply Forall_cons in Hds as [Hc _]. apply decimalDigit_cases in Hc.
  repeat (destruct Hc as [->|Hc]; [by rewrite Hnd|]).
  subst. by rewrite Hnd.
Qed.

Lemma lit_String a s : lit (String a s) = N_of_ascii a :: lit s.
Proof. reflexivity. Qed.

Lemma lit_append s1 s2 : lit (s1 +:+ s2) = lit s1 ++ lit s2.
Proof.
  induction s1 as [|a s1 IH]; [done|].
  change (String a s1 +:+ s2) with (String a (s1 +:+ s2)).
  by rewrite !lit_String, IH.
Qed.

Lemma pretty_N_char_code d :
  (d < 10)%N → N_of_ascii (pretty_N_char d) = (48 + d)%N.
Proof.
  intros Hd.
  assert (d = 0 ∨ d = 1 ∨ d = 2 ∨ d = 3 ∨ d = 4 ∨ d = 5 ∨ d = 6 ∨ d = 7
          ∨ d = 8 ∨ d = 9)%N as Hc by lia.
  repeat (destruct Hc as [->|Hc]; [reflexivity|]). by subst.
Qed.

(** The digits [pretty_N_go] puts in front of its accumulator write [x]
    in base ten. *)
Lemma lit_pretty_N_go x s :
  ∃ ds, lit (pretty_N_go x s) = ds ++ lit s
        ∧ Forall decimalDigit ds
        ∧ ((0 < x)%N → ds ≠ [])
        ∧ ∀ acc,
            foldl (λ acc c, acc * 10 + default 0 (digitValue c)) acc ds
            = acc * 10 ^ Z.of_nat (length ds) + Z.of_N x.
Proof.
  revert s. induction (N.lt_wf_0 x) as [x _ IH]; intros s.
  destruct (decide (x = 0)%N) as [->|Hx].
  - exists []. rewrite pretty_N_go_0. repeat split; [done|lia|].
    intros acc. cbn. lia.
  - rewrite pretty_N_go_step by lia.
    destruct (IH (x `div` 10)%N (N.div_lt x 10 ltac:(lia) eq_refl)
                (String (pretty_N_char (x `mod` 10)) s))
      as (ds & Hlit & Hds & _ & Hval).
    pose proof (N.mod_lt x 10 ltac:(lia)) as Hmod.
    pose proof (N.div_mod x 10 ltac:(lia)) as Hdm.
    rewrite Hlit, lit_String, pretty_N_char_code by done.
    set (d := (x `mod` 10)%N) in *. set (q := (x `div` 10)%N) in *.
    clearbody d q. clear IH Hlit.
    exists (ds ++ [(48 + d)%N]).
    split; [by rewrite <- app_assoc|]. split; [|split].
    + apply Forall_app. split; [done|].
      apply Forall_singleton. unfold decimalDigit. lia.
    + intros _. by destruct ds.
    + intros acc. rewrite foldl_app, Hval. cbn [foldl].
      rewrite digitValue_decimal by lia. cbn [default].
      rewrite length_app, Nat2Z.inj_add, Z.pow_add_r by lia. cbn [length].
      change (10 ^ Z.of_nat 1) with 10. unfold id.
      generalize (10 ^ Z.of_nat (length ds)). intros P. nia.
Qed.

Lemma lit_pretty_pos k :
  0 < k →
  lit (pretty k) ≠ []
  ∧ Forall decimalDigit (lit (pretty k))
  ∧ digitsValue 10 (lit (pretty k)) = k.
Proof.
  intros Hk. destruct k as [|p|p]; try lia.
  unfold pretty, pretty_Z, pretty, pretty_positive, pretty, pretty_N.
  rewrite decide_False by done.
  destruct (lit_pretty_N_go (N.pos p) "") as (ds & -> & Hds & Hne & Hval).
  change (lit "") with (@nil N). rewrite app_nil_r.
  split; [apply Hne; lia|]. split; [done|].
  unfold digitsValue. rewrite Hval. lia.
Qed.

Lemma split_from_token t cur b rest :
  t ≠ [] → Forall (λ c, isSeparator c = false) t →
  split_from cur b (t ++ rest) = split_from (rev t ++ cur) false rest.
Proof.
  revert cur b. induction t as [|c t IH]; intros cur b Hne Ht; [done|].
  apply Forall_cons in Ht as [Hc Ht]. cbn [app split_from]. rewrite Hc.
  destruct t as [|c' t].
  - reflexivity.
  - rewrite IH by done. cbn [rev]. by rewrite <- !app_assoc.
Qed.

(** Splitting a comma-joined list of non-empty strings without
    separator characters gives the strings back. *)
Lemma split_from_concat (strs : list string) b :
  strs ≠ [] →
  Forall (λ s, lit s ≠ [] ∧ Forall (λ c, isSeparator c = false) (lit s)) strs →
  split_from [] b (lit (String.concat "," strs)) = lit <$> strs.
Proof.
  revert b. induction strs as [|x strs IH]; intros b Hne Hall; [done|].
  apply Forall_cons in Hall as [[Hx Hsep] Hall].
  destruct strs as [|y strs].
  - cbn [String.concat fmap list_fmap].
    rewrite <- (app_nil_r (lit x)) at 1.
    rewrite split_from_token by done. cbn [split_from].
    by rewrite app_nil_r, rev_involutive.
  - change (String.concat "," (x :: y :: strs))
      with (x +:+ "," +:+ String.concat "," (y :: strs)).
    rewrite !lit_append. change (lit ",") with [44%N].
    rewrite split_from_token by done. cbn [app split_from].
    change (isSeparator 44) with true. cbv iota.
    rewrite app_nil_r, rev_involutive, IH by done. reflexivity.
Qed.

(** The decimal numerals of integers between 1 and 2^53 - 1, joined by
    commas, are kept token by token as those integers. *)
Lemma keptNumbers_joined (ks : list Z) :
  Forall (λ k, 0 < k < 2 ^ 53) ks →
  keptNumbers (lit (String.concat "," ((pretty : Z → string) <$> ks))) = ks.
Proof.
  intros Hks. destruct (decide (ks = [])) as [->|Hne]; [done|].
  unfold keptNumbers, split. rewrite split_from_concat.
  - clear Hne. induction Hks as [|k ks Hk _ IH]; [done|].
    destruct (lit_pretty_pos k ltac:(lia)) as (Hnil & Hdig & Hval).
    destruct (Number_digits _ Hnil Hdig ltac:(by rewrite Hval))
      as (Hint & Hpos & HtoZ).
    cbn [fmap list_fmap]. rewrite filter_cons_True by (by rewrite Hint, Hpos).
    cbn [fmap list_fmap]. rewrite HtoZ, Hval. f_equal. apply IH.
  - by destruct ks.
  - apply Forall_fmap, Forall_forall. intros k Hk. cbn.
    destruct (lit_pretty_pos k) as (Hnil & Hdig & _).
    { by apply (proj1 (Forall_forall _ _) Hks). }
    split; [done|]. eapply Forall_impl; [exact Hdig|].
    intros c Hc. by apply decimalDigit_not_separator.
Qed.

(** ** defaultOrder *)

(** The default order string parses to the identity order.  For every
    [groupCount] below 2^32, [defaultOrder] returns a string, and
    [parseHarvestOrder] applied to it and [groupCount] returns
    [1..groupCount] (the empty array when [groupCount <= 0]); so from 1
    upwards the default order is never rejected.  From 2^32 upwards
    [defaultOrder] throws. *)
Theorem parseHarvestOrder_defaultOrder groupCount :
  (groupCount < 2 ^ 32 →
   ∃ order,
     defaultOrder groupCount = Some order
     ∧ parseHarvestOrder order groupCount = seqZ 1 groupCount
     ∧ (1 ≤ groupCount → parseHarvestOrder order groupCount ≠ []))
  ∧ (2 ^ 32 ≤ groupCount → defaultOrder groupCount = None).
Proof.
  unfold defaultOrder. split.
  - intros Hlt. destruct (Z.leb_spec (2 ^ 32) groupCount) as [|_]; [lia|].
    eexists. split; [reflexivity|].
    set (order := lit _).
    assert (keptNumbers order = seqZ 1 groupCount) as Hk.
    { apply keptNumbers_joined, Forall_forall.
      intros k Hk%elem_of_seqZ. lia. }
    assert (parseHarvestOrder order groupCount = seqZ 1 groupCount) as Heq.
    { rewrite parseHarvestOrder_eq, Hk. case_decide as Hacc; [done|].
      destruct (decide (0 ≤ groupCount)).
      - exfalso. apply Hacc. split; [|done]. rewrite length_seqZ. lia.
      - by rewrite seqZ_nil by lia. }
    split; [done|]. intros Hge. rewrite Heq, seqZ_cons by lia. done.
  - intros Hge. by destruct (Z.leb_spec (2 ^ 32) groupCount) as [_|]; [|lia].
Qed.

Lemma parseHarvestOrder_defaultOrder_witness :
  ∃ order, defaultOrder 100 = Some order
           ∧ parseHarvestOrder order 100 = seqZ 1 100.
Proof.
  destruct (proj1 (parseHarvestOrder_defaultOrder 100))
    as (order & Hd & Hp & _); [lia|].
  exists order. split; [exact Hd | exact Hp].
Defined.

(** ** resetDefaults *)

(** Whatever state the component is in, [resetDefaults] completes and
    brings it to the state it has right after initialisation (the default
    form with its plan generated): no message, the eight default groups
    in ascending order, [maxPlanDay] 22 and a timeline of 42 days. *)
Theorem resetDefaults_state c :
  ∃ c',
    resetDefaults c = Some c'
    ∧ c' = generatePlan (initialComponent defaultForm)
    ∧ Component.form c' = defaultForm
    ∧ Component.messages c' = []
    ∧ GroupPlan.group <$> Component.plan c' = seqZ 1 8
    ∧ Component.maxPlanDay c' = 22
    ∧ Component.timelineDays c' = 42.
Proof.
  exists (generatePlan (initialComponent defaultForm)). split.
  - unfold resetDefaults.
    change (defaultOrder defaults.groupCount)
      with (Some (lit "1,2,3,4,5,6,7,8")).
    rewrite !generatePlan_unfold. reflexivity.
  - repeat split; reflexivity.
Qed.

(** ** split *)

Lemma split_from_separator_free cur b s token :
  Forall (λ c, isSeparator c = false) cur →
  token ∈ split_from cur b s →
  Forall (λ c, isSeparator c = false) token.
Proof.
  revert cur b. induction s as [|c s IH]; intros cur b Hcur Htok.
  - cbn in Htok. apply list_elem_of_singleton in Htok as ->.
    apply Forall_forall. intros x Hx.
    apply list_elem_of_In, in_rev, list_elem_of_In in Hx.
    by apply (proj1 (Forall_forall _ _) Hcur).
  - cbn [split_from] in Htok. destruct (isSeparator c) eqn:Hc.
    + destruct b.
      * by apply (IH [] true).
      * apply elem_of_cons in Htok as [->|Htok].
        -- apply Forall_forall. intros x Hx.
           apply list_elem_of_In, in_rev, list_elem_of_In in Hx.
           by apply (proj1 (Forall_forall _ _) Hcur).
        -- by apply (IH [] true).
    + apply (IH (c :: cur) false); [|done]. by constructor.
Qed.

Lemma split_from_run cur b r1 c1 c2 r2 :
  isSeparator c1 = true → isSeparator c2 = true →
  split_from cur b (r1 ++ c1 :: c2 :: r2) = split_from cur b (r1 ++ c1 :: r2)
  ∧ split_from cur b (r1 ++ c1 :: r2) = split_from cur b (r1 ++ c2 :: r2).
Proof.
  intros H1 H2. revert cur b.
  induction r1 as [|a r1 IH]; intros cur b; cbn [app split_from].
  - rewrite H1, H2. by destruct b.
  - destruct (IH [] true) as [E1 E2]. destruct (IH (a :: cur) false) as [E3 E4].
    destruct (isSeparator a), b; rewrite ?E1, ?E3; split; congruence.
Qed.

(** What [split] does with the separator pattern: it always returns at
    least one token; no token contains a comma or a white-space
    character; a run of separators splits like a single one; and which
    separator character is written makes no difference. *)
Theorem split_separators raw :
  split raw ≠ []
  ∧ (∀ token c, token ∈ split raw → c ∈ token → isSeparator c = false)
  ∧ (∀ r1 c1 c2 r2,
       isSeparator c1 = true → isSeparator c2 = true →
       split (r1 ++ c1 :: c2 :: r2) = split (r1 ++ c1 :: r2)
       ∧ split (r1 ++ c1 :: r2) = split (r1 ++ c2 :: r2)).
Proof.
  split; [|split].
  - unfold split. generalize (@nil N) false.
    induction raw as [|c raw IH]; intros cur b; cbn; [done|].
    destruct (isSeparator c); [destruct b|]; auto.
  - intros token c Htok Hc.
    pose proof (split_from_separator_free [] false raw token
                  (Forall_nil_2 _) Htok) as Hfree.
    by apply (proj1 (Forall_forall _ _) Hfree).
  - intros. by apply split_from_run.
Qed.

Lemma split_separators_witness :
  split (lit "1, 2") = split (lit "1,2")
  ∧ split (lit "1,2") = split (lit "1 2").
Proof.
  exact (proj2 (proj2 (split_separators []))
           (lit "1") 44%N 32%N (lit "2") eq_refl eq_refl).
Defined.

(** ** Separators around the order *)

(** The kept numbers of a list of tokens. *)
Lemma kept_cons token tokens :
  number_toZ
    <$> filter (λ num, Number_isInteger num && number_gt0 num = true)
          (Number <$> token :: tokens)
  = (if Number_isInteger (Number token) && number_gt0 (Number token)
     then [number_toZ (Number token)] else [])
    ++ (number_toZ
          <$> filter (λ num, Number_isInteger num && number_gt0 num = true)
                (Number <$> tokens)).
Proof.
  cbn [fmap list_fmap].
  destruct (Number_isInteger (Number token) && number_gt0 (Number token))
    eqn:Hk.
  - by rewrite filter_cons_True by done.
  - rewrite filter_cons_False; [done|]. by rewrite Hk.
Qed.

Lemma kept_split_from_insep raw :
  number_toZ
    <$> filter (λ num, Number_isInteger num && number_gt0 num = true)
          (Number <$> split_from [] true raw)
  = keptNumbers raw.
Proof.
  unfold keptNumbers, split. destruct raw as [|c raw]; [done|].
  cbn [split_from]. destruct (isSeparator c); [|done].
  by rewrite (kept_cons (rev [])).
Qed.

Lemma kept_split_from_trailing cur b raw c :
  isSeparator c = true → (b = true → cur = []) →
  number_toZ
    <$> filter (λ num, Number_isInteger num && number_gt0 num = true)
          (Number <$> split_from cur b (raw ++ [c]))
  = number_toZ
      <$> filter (λ num, Number_isInteger num && number_gt0 num = true)
            (Number <$> split_from cur b raw).
Proof.
  intros Hc. revert cur b.
  induction raw as [|a raw IH]; intros cur b Hb; cbn [app split_from].
  - rewrite Hc. destruct b.
    + by rewrite (Hb eq_refl).
    + by rewrite !kept_cons.
  - destruct (isSeparator a).
    + destruct b; [by apply IH|]. rewrite !kept_cons. f_equal. by apply IH.
    + by apply IH.
Qed.

(** A separator in front of the order string or behind it changes
    nothing: the same numbers are kept and [parseHarvestOrder] returns the
    same array. *)
Theorem parseHarvestOrder_outer_separator raw c groupCount :
  isSeparator c = true →
  keptNumbers (c :: raw) = keptNumbers raw
  ∧ keptNumbers (raw ++ [c]) = keptNumbers raw
  ∧ parseHarvestOrder (c :: raw) groupCount
    = parseHarvestOrder raw groupCount
  ∧ parseHarvestOrder (raw ++ [c]) groupCount
    = parseHarvestOrder raw groupCount.
Proof.
  intros Hc.
  assert (keptNumbers (c :: raw) = keptNumbers raw) as Hlead.
  { rewrite <- (kept_split_from_insep raw). unfold keptNumbers, split.
    cbn [split_from]. rewrite Hc. by rewrite (kept_cons (rev [])). }
  assert (keptNumbers (raw ++ [c]) = keptNumbers raw) as Htrail.
  { unfold keptNumbers, split. by apply kept_split_from_trailing. }
  by rewrite !parseHarvestOrder_eq, Hlead, Htrail.
Qed.

Lemma parseHarvestOrder_outer_separator_witness :
  parseHarvestOrder (lit " 2,1") 2 = parseHarvestOrder (lit "2,1") 2
  ∧ parseHarvestOrder (lit "2,1,") 2 = parseHarvestOrder (lit "2,1") 2.
Proof.
  split.
  - exact (proj1 (proj2 (proj2
      (parseHarvestOrder_outer_separator (lit "2,1") 32%N 2 eq_refl)))).
  - exact (proj2 (proj2 (proj2
      (parseHarvestOrder_outer_separator (lit "2,1") 44%N 2 eq_refl)))).
Defined.

(** ** phaseClass *)

(** Every phase type has a style class of its own: [phaseClass] never
    returns the empty string of its [default] branch, and different
    types get different classes. *)
Theorem phaseClass_injective :
  (∀ type, phaseClass type ≠ "")
  ∧ (∀ type1 type2, phaseClass type1 = phaseClass type2 → type1 = type2).
Proof.
  split.
  - by intros [].
  - intros [] []; (reflexivity || discriminate).
Qed.

Lemma phaseClass_injective_witness :
  phaseClass cathode_in ≠ phaseClass cathode_out.
Proof.
  intros H. by apply (proj2 phaseClass_injective) in H.
Defined.

(** ** Stability of the sort *)

Lemma sort_insert_stable {A} (key : A → Z) cmp (k : Z) x (l : list A) :
  (∀ a b, cmp a b = key a - key b) →
  filter (λ a, key a = k) (sort_insert cmp x l)
  = filter (λ a, key a = k) (x :: l).
Proof.
  intros Hcmp. induction l as [|y l IH]; [done|]. cbn [sort_insert].
  destruct (Z.leb_spec (cmp x y) 0) as [_|Hgt]; [done|].
  rewrite Hcmp in Hgt. rewrite filter_cons, IH, !filter_cons.
  repeat case_decide; (done || lia).
Qed.

Lemma Array_sort_stable {A} (key : A → Z) cmp (k : Z) (l : list A) :
  (∀ a b, cmp a b = key a - key b) →
  filter (λ a, key a = k) (Array_sort cmp l) = filter (λ a, key a = k) l.
Proof.
  intros Hcmp. induction l as [|x l IH]; [done|].
  cbn [Array_sort foldr]. fold (Array_sort cmp l).
  by rewrite (sort_insert_stable key), !filter_cons, IH.
Qed.

(** ** buildPlan on any order *)

(** Whatever [harvestOrder] holds (repeated or out-of-range numbers
    included), [buildPlan] returns one plan per position of
    [harvestOrder], the group numbers of the result are those of
    [harvestOrder] up to order, and they are listed in non-decreasing
    order; the plans of one group number stay in the order of their
    positions in [harvestOrder]. *)
Theorem buildPlan_any_order inputs :
  length (buildPlan inputs)
  = length (HarvestPlanInputs.harvestOrder inputs)
  ∧ GroupPlan.group <$> buildPlan inputs
    ≡ₚ HarvestPlanInputs.harvestOrder inputs
  ∧ Sorted Z.le (GroupPlan.group <$> buildPlan inputs)
  ∧ ∀ g, filter (λ p, GroupPlan.group p = g) (buildPlan inputs)
         = filter (λ p, GroupPlan.group p = g)
             (imap (buildPlan_step inputs)
                (HarvestPlanInputs.harvestOrder inputs)).
Proof.
  split; [|split; [|split]].
  - by rewrite buildPlan_Permutation, length_imap.
  - by rewrite buildPlan_Permutation, pushed_groups.
  - by apply Array_sort_Sorted.
  - intros g. by apply (Array_sort_stable GroupPlan.group).
Qed.

(** ** Events and ranges of a plan *)

(** In every plan the events are, in this order, "Einheben" on the
    plan's [startDay], "Kathoden raus" on the first day of the
    cathode-out phase, "Kathoden rein" on the first day of the
    cathode-reinserted phase and "Harvest/Anoden raus" on [harvestDay],
    followed by "Cleaning done" on [endDay] exactly when there is a
    cleaning phase; [cathodeOutRange] prints the span of the cathode-out
    phase and [cleaningRange] that of the cleaning phase. *)
Theorem events_match_phases inputs p :
  p ∈ buildPlan inputs →
  ∃ an cin cout cre rest,
    GroupPlan.phases p = an :: cin :: cout :: cre :: rest
    ∧ GroupPlan.events p
      = [ PlanEvent.mk "Einheben" (GroupPlan.startDay p);
          PlanEvent.mk "Kathoden raus" (PlanPhase.startDay cout);
          PlanEvent.mk "Kathoden rein" (PlanPhase.startDay cre);
          PlanEvent.mk "Harvest/Anoden raus" (GroupPlan.harvestDay p) ]
        ++ ((λ _, PlanEvent.mk "Cleaning done" (GroupPlan.endDay p)) <$> rest)
    ∧ GroupPlan.cathodeOutRange p
      = rangeString (PlanPhase.startDay cout) (PlanPhase.endDay cout)
    ∧ GroupPlan.cleaningRange p
      = (λ ph, rangeString (PlanPhase.startDay ph) (PlanPhase.endDay ph))
          <$> head rest
    ∧ (length rest ≤ 1)%nat.
Proof.
  intros Hp. plan_cases Hp.
  destruct (HarvestPlanInputs.cathodePhases inputs)
    as [[cathodeA cathodeB] cathodeC].
  cbn [GroupPlan.phases GroupPlan.events GroupPlan.startDay GroupPlan.endDay
       GroupPlan.harvestDay GroupPlan.cathodeOutRange GroupPlan.cleaningRange].
  destruct (0 <? HarvestPlanInputs.cleaningDays inputs);
    do 5 eexists; (split; [reflexivity|]); cbn; repeat split; lia.
Qed.

Lemma events_match_phases_witness :
  ∃ an cin cout cre rest,
    GroupPlan.phases (buildPlan_step sampleInputs 0 2)
    = an :: cin :: cout :: cre :: rest
    ∧ GroupPlan.cathodeOutRange (buildPlan_step sampleInputs 0 2)
      = rangeString (PlanPhase.startDay cout) (PlanPhase.endDay cout).
Proof.
  destruct (events_match_phases sampleInputs _ sampleInputs_group2)
    as (an & cin & cout & cre & rest & Hph & _ & Hr & _).
  exists an, cin, cout, cre, rest. split; [exact Hph | exact Hr].
Defined.

(** ** exportCsv *)

Lemma lit_pretty_chars (k : Z) c :
  c ∈ lit (pretty k) → decimalDigit c ∨ c = 45%N.
Proof.
  destruct k as [|p|p].
  - change (lit (pretty 0)) with [48%N].
    intros ->%list_elem_of_singleton. left. unfold decimalDigit. lia.
  - destruct (lit_pretty_pos (Z.pos p) ltac:(lia)) as (_ & Hd & _).
    intros Hc. left. by apply (proj1 (Forall_forall _ _) Hd).
  - change (pretty (Z.neg p)) with ("-" +:+ pretty (Z.pos p)).
    rewrite lit_append. change (lit "-") with [45%N].
    intros [Hc|Hc]%elem_of_app.
    + apply list_elem_of_singleton in Hc. by right.
    + destruct (lit_pretty_pos (Z.pos p) ltac:(lia)) as (_ & Hd & _).
      left. by apply (proj1 (Forall_forall _ _) Hd).
Qed.

Lemma lit_rangeString_chars a b c :
  c ∈ lit (rangeString a b) → decimalDigit c ∨ c = 45%N ∨ c = 32%N.
Proof.
  unfold rangeString. rewrite !lit_append, !elem_of_app.
  intros [Hc|[Hc|Hc]].
  - apply lit_pretty_chars in Hc. tauto.
  - change (lit " - ") with [32; 45; 32]%N in Hc. split_elem; auto.
  - apply lit_pretty_chars in Hc. tauto.
Qed.

(** Every exported row of a built plan has six fields, and none of them
    contains a comma or a line break: joined with commas, a row has
    exactly six columns and stays on one line. *)
Theorem csvFields_clean inputs p :
  p ∈ buildPlan inputs →
  length (csvFields p) = 6%nat
  ∧ ∀ field c, field ∈ csvFields p → c ∈ lit field →
               c ≠ 44%N ∧ c ≠ 10%N.
Proof.
  intros Hp. split; [done|]. intros field c Hf Hc.
  assert (decimalDigit c ∨ c = 45%N ∨ c = 32%N) as Hcases.
  { plan_cases Hp. unfold csvFields, buildPlan_step in Hf.
    destruct (HarvestPlanInputs.cathodePhases inputs)
      as [[cathodeA cathodeB] cathodeC].
    cbn [GroupPlan.group GroupPlan.startDay GroupPlan.endDay
         GroupPlan.harvestDay GroupPlan.cathodeOutRange
         GroupPlan.cleaningRange] in Hf.
    destruct (0 <? HarvestPlanInputs.cleaningDays inputs);
      cbn [default] in Hf; split_elem;
      try (apply lit_pretty_chars in Hc; tauto);
      try (apply lit_rangeString_chars in Hc; tauto).
    change (lit "-") with [45%N] in Hc.
    apply list_elem_of_singleton in Hc. auto. }
  unfold decimalDigit in Hcases. lia.
Qed.

Lemma csvFields_clean_witness :
  csvRow (buildPlan_step sampleInputs 0 2) = "2,1,13,5 - 7,11,11 - 12"
  ∧ length (csvFields (buildPlan_step sampleInputs 0 2)) = 6%nat.
Proof.
  split; [reflexivity|].
  exact (proj1 (csvFields_clean sampleInputs _ sampleInputs_group2)).
Defined.

(** An export is available exactly when the last [generatePlan] passed
    validation: after a failed validation [exportCsv] returns at once,
    after a successful one it produces the header line followed by one
    row per group. *)
Theorem exportCsv_after_generatePlan c :
  let c' := generatePlan c in
  (exportCsv c' = None ↔ (validateForm true c).2 = false)
  ∧ ((validateForm true c).2 = true →
     exportCsv c'
     = Some (String.concat newline
               (csvHeader :: (csvRow <$> Component.plan c')))
     ∧ Z.of_nat (length (csvRow <$> Component.plan c'))
       = Form.groupCount (Component.form c)).
Proof.
  cbn zeta.
  assert (Hsucc : (validateForm true c).2 = true →
    exportCsv (generatePlan c)
    = Some (String.concat newline
              (csvHeader :: (csvRow <$> Component.plan (generatePlan c))))
    ∧ Z.of_nat (length (csvRow <$> Component.plan (generatePlan c)))
      = Form.groupCount (Component.form c)).
  { intros Hok.
    pose proof (generatePlan_plan c Hok) as Hplan.
    destruct (validateForm_valid_inputs _ _ Hok)
      as ([Hgc _ _ _ _ Hperm] & _).
    pose proof (buildPlan_groups _ Hperm) as Hg.
    cbn [formInputs HarvestPlanInputs.groupCount] in Hg, Hgc.
    rewrite <- Hplan in Hg.
    assert (Z.of_nat (length (Component.plan (generatePlan c)))
            = Form.groupCount (Component.form c)) as Hlen.
    { rewrite <- (length_fmap GroupPlan.group), Hg, length_seqZ. lia. }
    split; [|by rewrite length_fmap].
    unfold exportCsv.
    destruct (Component.plan (generatePlan c)); [cbn in Hlen; lia|done]. }
  split; [|done]. split.
  - intros Hnone. destruct (validateForm true c).2 eqn:Hok; [|done].
    destruct (Hsucc eq_refl) as [Hsome _]. congruence.
  - intros Hfail. unfold exportCsv.
    rewrite generatePlan_unfold. cbn zeta. by rewrite Hfail.
Qed.

Lemma exportCsv_after_generatePlan_witness :
  exportCsv (generatePlan (initialComponent malformedForm)) = None
  ∧ Z.of_nat
      (length (csvRow
                 <$> Component.plan
                       (generatePlan (initialComponent defaultForm))))
    = 8.
Proof.
  split.
  - apply (proj1 (exportCsv_after_generatePlan
                    (initialComponent malformedForm))). reflexivity.
  - exact (proj2 (proj2 (exportCsv_after_generatePlan
                           (initialComponent defaultForm)) eq_refl)).
Defined.

(** * Day arithmetic in binary64 *)

(** ** Integers up to 2^53 are computed exactly *)

Lemma round_half_even_scale n d c :
  0 < c → 0 < d → round_half_even (n * c) (d * c) = round_half_even n d.
Proof.
  intros Hc Hd. unfold round_half_even.
  rewrite Z.div_mul_cancel_r by lia.
  rewrite Z.mul_mod_distr_r by lia.
  destruct (Z.compare_spec (2 * (n `mod` d * c)) (d * c)),
    (Z.compare_spec (2 * (n `mod` d)) d); try reflexivity; nia.
Qed.

Lemma ilog2_ratio_scale z j :
  0 < z → 0 ≤ j → ilog2_ratio (z * 2 ^ j) (2 ^ j) = Z.log2 z.
Proof.
  intros Hz Hj. unfold ilog2_ratio.
  rewrite Z.log2_mul_pow2, Z.log2_pow2 by lia.
  replace (j + Z.log2 z - j) with (Z.log2 z) by lia.
  pose proof (Z.log2_nonneg z) as Hl.
  destruct (Z.leb_spec 0 (Z.log2 z)) as [_|]; [|lia].
  assert (0 < 2 ^ j) as Hp by (apply Z.pow_pos_nonneg; lia).
  pose proof (Z.log2_spec z Hz) as [Hlow _].
  destruct (Z.ltb_spec (z * 2 ^ j) (2 ^ j * 2 ^ Z.log2 z)) as [Hb|_];
    [nia|done].
Qed.

(** [roundToDouble] depends on the value of the fraction only: a common
    factor [2^j] changes nothing. *)
Lemma roundToDouble_scale neg z j :
  0 ≤ z → 0 ≤ j →
  roundToDouble neg (z * 2 ^ j) (2 ^ j) = roundToDouble neg z 1.
Proof.
  intros Hz Hj.
  assert (0 < 2 ^ j) as Hp by (apply Z.pow_pos_nonneg; lia).
  unfold roundToDouble.
  destruct (Z.eqb_spec z 0) as [->|Hz0]; [done|].
  destruct (Z.eqb_spec (z * 2 ^ j) 0) as [|_]; [nia|].
  rewrite ilog2_ratio_scale by lia.
  pose proof (ilog2_ratio_scale z 0 ltac:(lia) ltac:(lia)) as H1.
  rewrite Z.pow_0_r, Z.mul_1_r in H1. rewrite H1.
  set (k := Z.max (Z.log2 z - 52) (-1074)).
  assert ((if 0 <=? k then round_half_even (z * 2 ^ j) (2 ^ j * 2 ^ k)
           else round_half_even (z * 2 ^ j * 2 ^ (- k)) (2 ^ j))
          = (if 0 <=? k then round_half_even z (1 * 2 ^ k)
             else round_half_even (z * 2 ^ (- k)) 1)) as ->; [|done].
  destruct (Z.leb_spec 0 k).
  - rewrite (Z.mul_comm (2 ^ j)), Z.mul_1_l.
    apply round_half_even_scale; [done|]. apply Z.pow_pos_nonneg; lia.
  - replace (z * 2 ^ j * 2 ^ (- k)) with (z * 2 ^ (- k) * 2 ^ j) by lia.
    rewrite <- (Z.mul_1_l (2 ^ j)) at 2.
    apply round_half_even_scale; lia.
Qed.

Lemma roundToDouble_small neg a :
  0 < a < 2 ^ 53 →
  roundToDouble neg a 1
  = Finite neg (a * 2 ^ (52 - Z.log2 a)) (Z.log2 a - 52).
Proof.
  intros [Hpos Hlt]. unfold roundToDouble.
  destruct (Z.eqb_spec a 0) as [|_]; [lia|].
  assert (0 ≤ Z.log2 a < 53) as Hlog.
  { split; [apply Z.log2_nonneg|]. by apply Z.log2_lt_pow2. }
  pose proof (ilog2_ratio_scale a 0 ltac:(lia) ltac:(lia)) as H1.
  rewrite Z.pow_0_r, Z.mul_1_r in H1. rewrite H1.
  rewrite Z.max_l by lia.
  destruct (Z.leb_spec 0 (Z.log2 a - 52)) as [Hk|Hk].
  - assert (Z.log2 a = 52) as Hl by lia. rewrite Hl.
    change (1 * 2 ^ (52 - 52)) with 1. rewrite round_half_even_1.
    change (2 ^ (52 - 52)) with 1. rewrite Z.mul_1_r.
    destruct (Z.leb_spec 1024 (Z.log2 a + (52 - 52))) as [|_]; [lia|done].
  - rewrite round_half_even_1.
    replace (- (Z.log2 a - 52)) with (52 - Z.log2 a) by lia.
    rewrite Z.log2_mul_pow2 by lia.
    destruct (Z.leb_spec 1024 (52 - Z.log2 a + Z.log2 a + (Z.log2 a - 52)))
      as [|_]; [lia|done].
Qed.

(** The representation of an integer of magnitude up to 2^53. *)
Lemma number_of_Z_repr z :
  Z.abs z ≤ 2 ^ 53 →
  ∃ m e, number_of_Z z = Finite (z <? 0) m e
         ∧ -52 ≤ e ≤ 1 ∧ 0 ≤ m
         ∧ m * 2 ^ (e + 52) = Z.abs z * 2 ^ 52.
Proof.
  intros Hz. unfold number_of_Z.
  destruct (decide (z = 0)) as [->|Hz0].
  { exists 0, 0. done. }
  destruct (decide (Z.abs z = 2 ^ 53)) as [Hmax|Hmax].
  { exists (2 ^ 52), 1. rewrite Hmax. done. }
  assert (0 < Z.abs z < 2 ^ 53) as Ha by lia.
  rewrite roundToDouble_small by done.
  assert (0 ≤ Z.log2 (Z.abs z) < 53) as Hlog.
  { split; [apply Z.log2_nonneg|]. apply Z.log2_lt_pow2; lia. }
  eexists _, _. split; [reflexivity|]. split; [lia|].
  assert (0 < 2 ^ (52 - Z.log2 (Z.abs z))) by (apply Z.pow_pos_nonneg; lia).
  split; [nia|].
  rewrite <- Z.mul_assoc, <- Z.pow_add_r by lia. f_equal. f_equal. lia.
Qed.

Lemma number_of_Z_day z : Z.abs z ≤ 2 ^ 53 → is_day (number_of_Z z) z.
Proof.
  intros Hz. destruct (number_of_Z_repr z Hz) as (m & e & -> & He & Hm & Heq).
  unfold is_day. cbn [Number_isInteger number_toZ].
  destruct (Z.leb_spec 0 e) as [Hpos|Hneg].
  - split; [done|].
    rewrite Z.pow_add_r, Z.mul_assoc in Heq by lia.
    apply Z.mul_cancel_r in Heq; [|lia].
    destruct (Z.ltb_spec z 0); lia.
  - assert (0 < 2 ^ (- e)) as Hp by (apply Z.pow_pos_nonneg; lia).
    assert (m = Z.abs z * 2 ^ (- e)) as ->.
    { assert (2 ^ 52 = 2 ^ (- e) * 2 ^ (e + 52)) as Hsplit.
      { rewrite <- Z.pow_add_r by lia. f_equal. lia. }
      rewrite Hsplit, Z.mul_assoc in Heq.
      apply Z.mul_cancel_r in Heq; [done|]. apply Z.pow_nonzero; lia. }
    rewrite Z.mod_mul, Z.div_mul by lia.
    split; [done|]. destruct (Z.ltb_spec z 0); lia.
Qed.

Lemma number_gt0_of_Z z :
  Z.abs z ≤ 2 ^ 53 → number_gt0 (number_of_Z z) = (0 <? z).
Proof.
  intros Hz. destruct (number_of_Z_repr z Hz) as (m & e & -> & He & Hm & Heq).
  assert (0 < 2 ^ (e + 52)) by (apply Z.pow_pos_nonneg; lia).
  cbn. destruct (Z.ltb_spec z 0), (Z.ltb_spec 0 z), (Z.ltb_spec 0 m);
    try done; try lia; nia.
Qed.

Lemma signedMantissa_repr z m e :
  m * 2 ^ (e + 52) = Z.abs z * 2 ^ 52 →
  signedMantissa (z <? 0) m * 2 ^ (e + 52) = z * 2 ^ 52.
Proof.
  intros Heq. unfold signedMantissa. destruct (Z.ltb_spec z 0); lia.
Qed.

Lemma num_add_exact a b :
  Z.abs a ≤ 2 ^ 53 → Z.abs b ≤ 2 ^ 53 →
  num_add (number_of_Z a) (number_of_Z b) = number_of_Z (a + b).
Proof.
  intros Ha Hb.
  destruct (number_of_Z_repr a Ha) as (m1 & e1 & -> & He1 & Hm1 & Heq1).
  destruct (number_of_Z_repr b Hb) as (m2 & e2 & -> & He2 & Hm2 & Heq2).
  apply signedMantissa_repr in Heq1, Heq2.
  cbn [num_add]. cbv zeta.
  set (e0 := Z.min e1 e2).
  set (sum := signedMantissa (a <? 0) m1 * 2 ^ (e1 - e0)
              + signedMantissa (b <? 0) m2 * 2 ^ (e2 - e0)).
  assert (-52 ≤ e0 ≤ 1 ∧ e0 ≤ e1 ∧ e0 ≤ e2) as He0 by (unfold e0; lia).
  assert (0 < 2 ^ (e0 + 52)) as Hp0 by (apply Z.pow_pos_nonneg; lia).
  assert (sum * 2 ^ (e0 + 52) = (a + b) * 2 ^ 52) as Hsum.
  { unfold sum. rewrite Z.mul_add_distr_r, <- !Z.mul_assoc.
    rewrite <- !Z.pow_add_r by lia.
    replace (e1 - e0 + (e0 + 52)) with (e1 + 52) by lia.
    replace (e2 - e0 + (e0 + 52)) with (e2 + 52) by lia. lia. }
  assert ((if sum =? 0 then (a <? 0) && (b <? 0) else sum <? 0)
          = (a + b <? 0)) as ->.
  { destruct (Z.eqb_spec sum 0) as [H0|H0].
    - rewrite H0 in Hsum.
      destruct (Z.ltb_spec a 0), (Z.ltb_spec b 0), (Z.ltb_spec (a + b) 0);
        cbn; (done || lia).
    - destruct (Z.ltb_spec sum 0), (Z.ltb_spec (a + b) 0); (done || nia). }
  unfold number_of_Z.
  destruct (Z.leb_spec 0 e0) as [Hpos|Hneg].
  - f_equal. rewrite Z.pow_add_r, Z.mul_assoc in Hsum by lia.
    apply Z.mul_cancel_r in Hsum; [|lia].
    rewrite <- Hsum, Z.abs_mul. f_equal.
    symmetry. apply Z.abs_eq, Z.pow_nonneg. lia.
  - assert (0 < 2 ^ (- e0)) as Hq by (apply Z.pow_pos_nonneg; lia).
    assert (sum = (a + b) * 2 ^ (- e0)) as ->.
    { assert (2 ^ 52 = 2 ^ (- e0) * 2 ^ (e0 + 52)) as Hsplit.
      { rewrite <- Z.pow_add_r by lia. f_equal. lia. }
      rewrite Hsplit, Z.mul_assoc in Hsum.
      apply Z.mul_cancel_r in Hsum; [done|lia]. }
    rewrite Z.abs_mul, (Z.abs_eq (2 ^ (- e0))) by lia.
    apply roundToDouble_scale; lia.
Qed.

Lemma num_neg_of_Z b :
  b ≠ 0 → num_neg (number_of_Z b) = number_of_Z (- b).
Proof.
  intros Hb. unfold number_of_Z, roundToDouble.
  rewrite Z.abs_opp.
  assert ((- b <? 0) = negb (b <? 0)) as ->.
  { destruct (Z.ltb_spec (- b) 0), (Z.ltb_spec b 0); (done || lia). }
  destruct (Z.abs b =? 0); [done|].
  by destruct (1024 <=? _).
Qed.

Lemma num_sub_exact a b :
  Z.abs a ≤ 2 ^ 53 → Z.abs b ≤ 2 ^ 53 → b ≠ 0 →
  num_sub (number_of_Z a) (number_of_Z b) = number_of_Z (a - b).
Proof.
  intros Ha Hb Hb0. unfold num_sub.
  rewrite num_neg_of_Z by done. rewrite num_add_exact by lia.
  f_equal.
Qed.

Lemma num_mul_exact a b :
  0 ≤ a ≤ 2 ^ 53 → 0 ≤ b ≤ 2 ^ 53 →
  num_mul (number_of_Z a) (number_of_Z b) = number_of_Z (a * b).
Proof.
  intros Ha Hb.
  destruct (number_of_Z_repr a ltac:(lia)) as (m1 & e1 & -> & He1 & Hm1 & Heq1).
  destruct (number_of_Z_repr b ltac:(lia)) as (m2 & e2 & -> & He2 & Hm2 & Heq2).
  rewrite Z.abs_eq in Heq1, Heq2 by lia.
  assert ((a <? 0) = false) as -> by (apply Z.ltb_ge; lia).
  assert ((b <? 0) = false) as -> by (apply Z.ltb_ge; lia).
  cbn [num_mul xorb]. cbv zeta. unfold number_of_Z.
  assert ((a * b <? 0) = false) as -> by (apply Z.ltb_ge; nia).
  rewrite (Z.abs_eq (a * b)) by nia.
  assert (0 < 2 ^ (e1 + 52)) as Hp1 by (apply Z.pow_pos_nonneg; lia).
  assert (0 < 2 ^ (e2 + 52)) as Hp2 by (apply Z.pow_pos_nonneg; lia).
  assert (m1 * m2 * 2 ^ (e1 + e2 + 104) = a * b * 2 ^ 104) as Hprod.
  { replace (e1 + e2 + 104) with ((e1 + 52) + (e2 + 52)) by lia.
    rewrite Z.pow_add_r by lia. change (2 ^ 104) with (2 ^ 52 * 2 ^ 52).
    transitivity ((m1 * 2 ^ (e1 + 52)) * (m2 * 2 ^ (e2 + 52))); [ring|].
    rewrite Heq1, Heq2. ring. }
  destruct (Z.leb_spec 0 (e1 + e2)) as [Hpos|Hneg].
  - f_equal. rewrite Z.pow_add_r, Z.mul_assoc in Hprod by lia.
    apply Z.mul_cancel_r in Hprod; [done|lia].
  - assert (0 < 2 ^ (- (e1 + e2))) as Hq by (apply Z.pow_pos_nonneg; lia).
    assert (m1 * m2 = a * b * 2 ^ (- (e1 + e2))) as ->.
    { assert (2 ^ 104 = 2 ^ (- (e1 + e2)) * 2 ^ (e1 + e2 + 104)) as Hsplit.
      { rewrite <- Z.pow_add_r by lia. f_equal. lia. }
      rewrite Hsplit, Z.mul_assoc in Hprod.
      apply Z.mul_cancel_r in Hprod; [done|].
      apply Z.pow_nonzero; lia. }
    apply roundToDouble_scale; [nia|lia].
Qed.

(** ** The phases within 2^53 *)

(** The start day of position [index], computed exactly. *)
Lemma startDay64_exact (index : nat) offset :
  Z.of_nat index < 2 ^ 32 → 0 ≤ offset ≤ 2 ^ 53 →
  1 + Z.of_nat index * offset ≤ 2 ^ 53 →
  num_add (number_of_Z 1)
    (num_mul (number_of_Z (Z.of_nat index)) (number_of_Z offset))
  = number_of_Z (1 + Z.of_nat index * offset).
Proof.
  intros Hidx Hoff Hs.
  assert (0 ≤ Z.of_nat index * offset) by nia.
  by rewrite num_mul_exact, num_add_exact by lia.
Qed.

Lemma phases64_cathode inputs (index : nat) A B C :
  valid_inputs inputs →
  HarvestPlanInputs.cathodePhases inputs = (A, B, C) →
  Z.of_nat index < 2 ^ 32 →
  HarvestPlanInputs.groupStartOffsetDays inputs ≤ 2 ^ 53 →
  let s :=
    1 + Z.of_nat index * HarvestPlanInputs.groupStartOffsetDays inputs in
  s + A + B + C ≤ 2 ^ 53 →
  ∃ an rest,
    phases64 inputs index
    = an
      :: phase64_of_days "Kathoden drin" s (s + A - 1) A cathode_in
      :: phase64_of_days "Kathoden entfernt" (s + A) (s + A + B - 1) B
           cathode_out
      :: phase64_of_days "Kathoden wieder eingesetzt" (s + A + B)
           (s + A + B + C - 1) C cathode_reinserted
      :: rest
    ∧ PlanPhase64.type an = anode
    ∧ Forall (λ ph, PlanPhase64.type ph = cleaning) rest.
Proof.
  intros [_ _ Hcath _ Hoff _] HABC Hidx Hoffmax s Hbound.
  rewrite HABC in Hcath. cbn in Hcath. destruct Hcath as (HA & HB & HC).
  assert (0 ≤ Z.of_nat index
              * HarvestPlanInputs.groupStartOffsetDays inputs) by nia.
  unfold phases64. rewrite HABC. cbv beta iota zeta.
  rewrite startDay64_exact by lia. fold s.
  rewrite (num_add_exact s A) by lia.
  rewrite (num_sub_exact (s + A) 1) by lia.
  rewrite (num_add_exact (s + A) B) by lia.
  rewrite (num_sub_exact (s + A + B) 1) by lia.
  rewrite (num_add_exact (s + A + B - 1) 1) by lia.
  rewrite (num_add_exact (s + A + B - 1 + 1) C) by lia.
  rewrite (num_sub_exact (s + A + B - 1 + 1 + C) 1) by lia.
  replace (s + A + B - 1 + 1 + C - 1) with (s + A + B + C - 1) by lia.
  replace (s + A + B - 1 + 1) with (s + A + B) by lia.
  eexists _, _. split; [reflexivity|]. split; [reflexivity|].
  destruct (number_gt0 _); repeat constructor.
Qed.

(** C4 as stated fails: [bigCathodeInputs] is valid, and with
    [cathodeA = 2^53] the sums are rounded: the cathode-out phase is
    computed as day 2^53 to day 2^53, not 2^53 + 1 to 2^53 + 2, and the
    cathode-reinserted phase starts on day 2^53 as well, so the two
    overlap. *)
Lemma cathode_phases_chained_counterexample :
  valid_inputs bigCathodeInputs
  ∧ ¬ cathode_chained64 bigCathodeInputs 0
  ∧ ∃ an cin cout cre,
      phases64 bigCathodeInputs 0 = [an; cin; cout; cre]
      ∧ is_day (PlanPhase64.endDay cin) (2 ^ 53 - 1)
      ∧ is_day (PlanPhase64.startDay cout) (2 ^ 53)
      ∧ is_day (PlanPhase64.endDay cout) (2 ^ 53)
      ∧ is_day (PlanPhase64.startDay cre) (2 ^ 53).
Proof.
  split; [|split].
  - split; cbn; try lia. done.
  - unfold cathode_chained64.
    cbn [bigCathodeInputs HarvestPlanInputs.cathodePhases].
    intros (an & cin & cout & cre & rest & Heq & _ & _ & _
            & (_ & [_ Hstart] & _) & _).
    vm_compute in Heq. injection Heq as <- <- <- <- <-.
    vm_compute in Hstart. discriminate.
  - do 4 eexists. split; [vm_compute; reflexivity|].
    repeat split; vm_compute; reflexivity.
Qed.

(** C4, amended.  For valid inputs with [cathodePhases = (A, B, C)] and a
    position [index] (an array index, so below 2^32) whose day numbers
    stay within the integers that JavaScript numbers hold exactly
    ([groupStartOffsetDays <= 2^53] and
    [1 + index * groupStartOffsetDays + A + B + C <= 2^53]), the phases
    computed are the anode phase, cathode-in over [s .. s+A-1],
    cathode-out over [s+A .. s+A+B-1], cathode-reinserted over
    [s+A+B .. s+A+B+C-1], then at most a cleaning phase, where [s] is the
    start day [1 + index * groupStartOffsetDays]: each cathode phase
    starts the day after the previous one ends.  Nothing is assumed about
    [A + B + C] and [anodeDays]. *)
Theorem cathode_phases_chained64 inputs (index : nat) A B C :
  valid_inputs inputs →
  HarvestPlanInputs.cathodePhases inputs = (A, B, C) →
  Z.of_nat index < 2 ^ 32 →
  HarvestPlanInputs.groupStartOffsetDays inputs ≤ 2 ^ 53 →
  1 + Z.of_nat index * HarvestPlanInputs.groupStartOffsetDays inputs
  + A + B + C ≤ 2 ^ 53 →
  cathode_chained64 inputs index.
Proof.
  intros Hv HABC Hidx Hoffmax Hbound.
  destruct (phases64_cathode inputs index A B C Hv HABC Hidx Hoffmax Hbound)
    as (an & rest & Heq & Han & Hrest).
  destruct Hv as [_ _ Hcath _ Hoff _].
  rewrite HABC in Hcath. cbn in Hcath. destruct Hcath as (HA & HB & HC).
  assert (0 ≤ Z.of_nat index
              * HarvestPlanInputs.groupStartOffsetDays inputs) by nia.
  unfold cathode_chained64. rewrite HABC.
  eexists _, _, _, _, _. split; [exact Heq|].
  split; [done|]. split; [done|].
  unfold phase64_of_days.
  cbn [PlanPhase64.type PlanPhase64.startDay PlanPhase64.endDay].
  repeat split; apply number_of_Z_day; lia.
Qed.

Lemma cathode_phases_chained64_witness : cathode_chained64 sampleInputs 1.
Proof.
  apply (cathode_phases_chained64 sampleInputs 1 4 3 3).
  - exact sampleInputs_valid.
  - reflexivity.
  - simpl. lia.
  - simpl. lia.
  - simpl. lia.
Defined.

Lemma phases64_anode_cleaning inputs (index : nat) :
  valid_inputs inputs →
  Z.of_nat index < 2 ^ 32 →
  HarvestPlanInputs.groupStartOffsetDays inputs ≤ 2 ^ 53 →
  let s :=
    1 + Z.of_nat index * HarvestPlanInputs.groupStartOffsetDays inputs in
  let anodeDays := HarvestPlanInputs.anodeDays inputs in
  let cleaningDays := HarvestPlanInputs.cleaningDays inputs in
  s + anodeDays + cleaningDays ≤ 2 ^ 53 →
  ∃ cin cout cre,
    phases64 inputs index
    = [ phase64_of_days "Anode im Elektrolyt" s (s + anodeDays - 1)
          anodeDays anode;
        cin; cout; cre ]
      ++ (if 0 <? cleaningDays
          then [ phase64_of_days "Cleaning" (s + anodeDays)
                   (s + anodeDays + cleaningDays - 1) cleaningDays cleaning ]
          else []).
Proof.
  intros [_ Han _ Hcl Hoff _] Hidx Hoffmax s anodeDays cleaningDays Hbound.
  assert (0 ≤ Z.of_nat index
              * HarvestPlanInputs.groupStartOffsetDays inputs) by nia.
  unfold phases64.
  destruct (HarvestPlanInputs.cathodePhases inputs) as [[A B] C].
  cbv beta iota zeta.
  rewrite startDay64_exact by lia. fold s anodeDays cleaningDays.
  rewrite (num_add_exact s anodeDays) by lia.
  rewrite (num_sub_exact (s + anodeDays) 1) by lia.
  rewrite (num_add_exact (s + anodeDays - 1) 1) by lia.
  rewrite (num_add_exact (s + anodeDays - 1 + 1) cleaningDays) by lia.
  rewrite (num_sub_exact (s + anodeDays - 1 + 1 + cleaningDays) 1) by lia.
  rewrite number_gt0_of_Z by lia.
  replace (s + anodeDays - 1 + 1 + cleaningDays - 1)
    with (s + anodeDays + cleaningDays - 1) by lia.
  replace (s + anodeDays - 1 + 1) with (s + anodeDays) by lia.
  eexists _, _, _. reflexivity.
Qed.

(** C5, amended.  For valid inputs and a position [index] (an array
    index, so below 2^32) whose day numbers stay within the integers that
    JavaScript numbers hold exactly
    ([groupStartOffsetDays <= 2^53], [1 + index * groupStartOffsetDays +
    A + B + C <= 2^53] and [1 + index * groupStartOffsetDays + anodeDays +
    cleaningDays <= 2^53]), every phase computed has integer day numbers
    with [startDay >= 1], [endDay >= startDay - 1] and
    [durationDays = endDay - startDay + 1].  The bounds [endDay >= 1] and
    [endDay >= startDay] hold for every phase whose duration is not 0,
    and in particular for every anode and cleaning phase. *)
Theorem phase_days64 inputs (index : nat) A B C ph :
  valid_inputs inputs →
  HarvestPlanInputs.cathodePhases inputs = (A, B, C) →
  Z.of_nat index < 2 ^ 32 →
  HarvestPlanInputs.groupStartOffsetDays inputs ≤ 2 ^ 53 →
  1 + Z.of_nat index * HarvestPlanInputs.groupStartOffsetDays inputs
  + A + B + C ≤ 2 ^ 53 →
  1 + Z.of_nat index * HarvestPlanInputs.groupStartOffsetDays inputs
  + HarvestPlanInputs.anodeDays inputs
  + HarvestPlanInputs.cleaningDays inputs ≤ 2 ^ 53 →
  ph ∈ phases64 inputs index →
  ∃ startDay endDay durationDays,
    is_day (PlanPhase64.startDay ph) startDay
    ∧ is_day (PlanPhase64.endDay ph) endDay
    ∧ is_day (PlanPhase64.durationDays ph) durationDays
    ∧ 1 ≤ startDay
    ∧ startDay - 1 ≤ endDay
    ∧ durationDays = endDay - startDay + 1
    ∧ (durationDays ≠ 0 → 1 ≤ endDay ∧ startDay ≤ endDay)
    ∧ (PlanPhase64.type ph = anode ∨ PlanPhase64.type ph = cleaning →
       1 ≤ durationDays ∧ 1 ≤ endDay ∧ startDay ≤ endDay).
Proof.
  intros Hv HABC Hidx Hoffmax Hcb Hab Hph.
  destruct (phases64_cathode inputs index A B C Hv HABC Hidx Hoffmax Hcb)
    as (an & rest & Heq & _ & _).
  destruct (phases64_anode_cleaning inputs index Hv Hidx Hoffmax Hab)
    as (cin & cout & cre & Heq').
  rewrite Heq in Heq'. cbn [app] in Heq'.
  injection Heq' as -> _ _ _ ->. rewrite Heq in Hph. clear Heq.
  destruct Hv as [_ Han Hcath Hcl Hoff _].
  rewrite HABC in Hcath. cbn in Hcath. destruct Hcath as (HA & HB & HC).
  assert (0 ≤ Z.of_nat index
              * HarvestPlanInputs.groupStartOffsetDays inputs) by nia.
  assert (Hday : ∀ name a b d type,
    1 ≤ a ≤ 2 ^ 53 → a - 1 ≤ b → d = b - a + 1 → b ≤ 2 ^ 53 →
    (type = anode ∨ type = cleaning → 1 ≤ d) →
    ∃ startDay endDay durationDays,
      is_day (PlanPhase64.startDay (phase64_of_days name a b d type)) startDay
      ∧ is_day (PlanPhase64.endDay (phase64_of_days name a b d type)) endDay
      ∧ is_day (PlanPhase64.durationDays (phase64_of_days name a b d type))
          durationDays
      ∧ 1 ≤ startDay ∧ startDay - 1 ≤ endDay
      ∧ durationDays = endDay - startDay + 1
      ∧ (durationDays ≠ 0 → 1 ≤ endDay ∧ startDay ≤ endDay)
      ∧ (PlanPhase64.type (phase64_of_days name a b d type) = anode
         ∨ PlanPhase64.type (phase64_of_days name a b d type) = cleaning →
         1 ≤ durationDays ∧ 1 ≤ endDay ∧ startDay ≤ endDay)).
  { intros name a b d type Ha Hb Hd Hmax Hty. exists a, b, d.
    unfold phase64_of_days. cbn.
    split; [apply number_of_Z_day; lia|].
    split; [apply number_of_Z_day; lia|].
    split; [apply number_of_Z_day; lia|].
    split; [lia|]. split; [done|]. split; [done|].
    split; [lia|]. intros Hc. specialize (Hty Hc). lia. }
  destruct (Z.ltb_spec 0 (HarvestPlanInputs.cleaningDays inputs));
    split_elem; apply Hday; try lia;
    intros [Hc|Hc]; (discriminate Hc || lia).
Qed.

Lemma phase_days64_witness :
  ∃ startDay endDay durationDays,
    is_day (number_of_Z 1) startDay ∧ is_day (number_of_Z 0) endDay
    ∧ is_day (number_of_Z 0) durationDays
    ∧ 1 ≤ startDay ∧ startDay - 1 ≤ endDay
    ∧ durationDays = endDay - startDay + 1.
Proof.
  destruct (phase_days64 zeroCathodeInputs 0 0 5 5
              (phase64_of_days "Kathoden drin" 1 0 0 cathode_in))
    as (sd & ed & dd & H1 & H2 & H3 & H4 & H5 & H6 & _).
  - exact zeroCathodeInputs_valid.
  - reflexivity.
  - simpl. lia.
  - simpl. lia.
  - simpl. lia.
  - simpl. lia.
  - vm_compute. apply list_elem_of_further, list_elem_of_here.
  - exists sd, ed, dd.
    split; [exact H1|]. split; [exact H2|]. split; [exact H3|].
    split; [exact H4|]. split; [exact H5|exact H6].
Defined.

(** ** Agreement of the two readings *)

(** Within 2^53 the phases computed in binary64 are the phases of
    [buildPlan_step], day number by day number. *)
Lemma phases64_buildPlan_step inputs (index : nat) groupNumber A B C :
  valid_inputs inputs →
  HarvestPlanInputs.cathodePhases inputs = (A, B, C) →
  Z.of_nat index < 2 ^ 32 →
  HarvestPlanInputs.groupStartOffsetDays inputs ≤ 2 ^ 53 →
  1 + Z.of_nat index * HarvestPlanInputs.groupStartOffsetDays inputs
  + A + B + C ≤ 2 ^ 53 →
  1 + Z.of_nat index * HarvestPlanInputs.groupStartOffsetDays inputs
  + HarvestPlanInputs.anodeDays inputs
  + HarvestPlanInputs.cleaningDays inputs ≤ 2 ^ 53 →
  phases64 inputs index
  = (λ ph, phase64_of_days (PlanPhase.name ph) (PlanPhase.startDay ph)
             (PlanPhase.endDay ph) (PlanPhase.durationDays ph)
             (PlanPhase.type ph))
      <$> GroupPlan.phases (buildPlan_step inputs index groupNumber).
Proof.
  intros Hv HABC Hidx Hoffmax Hcb Hab.
  destruct (phases64_cathode inputs index A B C Hv HABC Hidx Hoffmax Hcb)
    as (an & rest & Heq & _ & _).
  destruct (phases64_anode_cleaning inputs index Hv Hidx Hoffmax Hab)
    as (cin & cout & cre & Heq').
  rewrite Heq in Heq'. cbn [app] in Heq'.
  injection Heq' as -> _ _ _ ->. rewrite Heq. clear Heq.
  unfold buildPlan_step. rewrite HABC.
  cbn [GroupPlan.phases].
  destruct (0 <? HarvestPlanInputs.cleaningDays inputs);
    cbn [fmap list_fmap app PlanPhase.name PlanPhase.startDay
         PlanPhase.endDay PlanPhase.durationDays PlanPhase.type];
    unfold phase64_of_days; repeat (f_equal; try lia).
Qed.
